(** * sms-beacon: the keyword-triggered alarm and the location acquirer

    A shallow embedding of the two stateful React components of the
    repository:

    - [PhoneFinderApp] (inbox feed, keyword configuration, alarm and its
      3 second auto-off timer);
    - [GpsTracker] (geolocation request, failure classification and the
      auto-locate effect).

    React state cells become record fields, event handlers become functions
    from state to state, and the host environment the handlers talk to
    (clock, [setTimeout] queue, oscillators, geolocation requests, toasts) is
    part of the same record.  *)

From Stdlib Require Import ZArith List String Ascii Bool Lia.
From Stdlib Require Import DecimalString DecimalZ Sorted.
Import ListNotations.

Open Scope string_scope.
Open Scope Z_scope.

(** ** The string primitives the handlers use

    Strings are sequences of bytes ([String.string]). *)
Module JS.

(** [String.prototype.includes] is [StringIndexOf(S, searchStr, 0) <> -1];
    [StringIndexOf] tries every start position in ascending order and
    compares the candidate substring with the search string. *)
Fixpoint StringIndexOf (s searchValue : string) (i : nat) : option nat :=
  if String.prefix searchValue s then Some i
  else match s with
       | EmptyString => None
       | String _ s' => StringIndexOf s' searchValue (S i)
       end.

Definition includes (s searchString : string) : bool :=
  match StringIndexOf s searchString 0 with
  | Some _ => true
  | None => false
  end.

(** [String.prototype.toUpperCase], on the Basic Latin block: the letters
    [a]..[z] go to [A]..[Z], every other byte is kept. *)
Definition upper_ascii (c : ascii) : ascii :=
  let n := nat_of_ascii c in
  if (Nat.leb 97 n && Nat.leb n 122)%bool then ascii_of_nat (n - 32) else c.

Fixpoint toUpperCase (s : string) : string :=
  match s with
  | EmptyString => EmptyString
  | String c s' => String (upper_ascii c) (toUpperCase s')
  end.

(** White space of the Basic Latin block: TAB, LF, VT, FF, CR and SPACE. *)
Definition is_white_space (c : ascii) : bool :=
  let n := nat_of_ascii c in
  ((Nat.leb 9 n && Nat.leb n 13) || Nat.eqb n 32)%bool.

Fixpoint whitespace_only (s : string) : bool :=
  match s with
  | EmptyString => true
  | String c s' => (is_white_space c && whitespace_only s')%bool
  end.

(** [Number.prototype.toString] of an integer: its decimal digits. *)
Definition number_toString (n : Z) : string :=
  NilEmpty.string_of_int (Z.to_int n).

(** Truthiness of a string: [!s] holds for the empty string only. *)
Definition truthy (s : string) : bool :=
  match s with
  | EmptyString => false
  | String _ _ => true
  end.

End JS.

(** ** PhoneFinderApp *)
Module PhoneFinderApp.

Record SmsMessage := mkSms {
  id : string;
  sender : string;
  message : string;
  timestamp : Z;
  triggered : bool
}.

(** A pending [setTimeout] callback of [activateAlarm]: at [deadline] it
    stops [oscillator] and calls [setIsAlarmActive(false)]. *)
Record Timer := mkTimer {
  deadline : Z;
  oscillator : nat
}.

(** What a handler does to the outside, in order. *)
Inductive Effect :=
| CallActivateAlarm
| OscillatorStart (o : nat)
| OscillatorStop (o : nat)
| Toast (title description variant : string).

Record State := mkState {
  (* React state *)
  keyword : string;
  isAlarmActive : bool;
  smsMessages : list SmsMessage;
  testSender : string;
  testMessage : string;
  (* host *)
  clock : Z;                (* Date.now(), milliseconds *)
  timers : list Timer;      (* pending setTimeout callbacks, oldest first *)
  nextOscillator : nat;
  trace : list Effect
}.

Definition init (now : Z) : State :=
  {| keyword := "ACHARCELULAR123";
     isAlarmActive := false;
     smsMessages := [];
     testSender := "";
     testMessage := "";
     clock := now;
     timers := [];
     nextOscillator := 0;
     trace := [] |}.

(** [onChange] of the keyword input:
    [setKeyword(e.target.value.toUpperCase())]. *)
Definition onChangeKeyword (value : string) (st : State) : State :=
  {| keyword := JS.toUpperCase value;
     isAlarmActive := isAlarmActive st;
     smsMessages := smsMessages st;
     testSender := testSender st;
     testMessage := testMessage st;
     clock := clock st;
     timers := timers st;
     nextOscillator := nextOscillator st;
     trace := trace st |}.

Definition onChangeTestSender (value : string) (st : State) : State :=
  {| keyword := keyword st;
     isAlarmActive := isAlarmActive st;
     smsMessages := smsMessages st;
     testSender := value;
     testMessage := testMessage st;
     clock := clock st;
     timers := timers st;
     nextOscillator := nextOscillator st;
     trace := trace st |}.

Definition onChangeTestMessage (value : string) (st : State) : State :=
  {| keyword := keyword st;
     isAlarmActive := isAlarmActive st;
     smsMessages := smsMessages st;
     testSender := testSender st;
     testMessage := value;
     clock := clock st;
     timers := timers st;
     nextOscillator := nextOscillator st;
     trace := trace st |}.

Definition toast (title description variant : string) (st : State) : State :=
  {| keyword := keyword st;
     isAlarmActive := isAlarmActive st;
     smsMessages := smsMessages st;
     testSender := testSender st;
     testMessage := testMessage st;
     clock := clock st;
     timers := timers st;
     nextOscillator := nextOscillator st;
     trace := trace st ++ [Toast title description variant] |}.

Definition ALARM_MS : Z := 3000.

(** [activateAlarm]: [setIsAlarmActive(true)], a fresh oscillator is
    created and started, and [setTimeout(..., 3000)] registers the callback
    that stops this oscillator and sets the flag back.  Nothing is tested
    before, and no handle of the timeout is kept. *)
Definition activateAlarm (st : State) : State :=
  let o := nextOscillator st in
  {| keyword := keyword st;
     isAlarmActive := true;
     smsMessages := smsMessages st;
     testSender := testSender st;
     testMessage := testMessage st;
     clock := clock st;
     timers := timers st ++ [ {| deadline := clock st + ALARM_MS; oscillator := o |} ];
     nextOscillator := S o;
     trace := trace st ++ [CallActivateAlarm; OscillatorStart o] |}.

(** The message [simulateIncomingSms] builds.  [Date.now()] for the [id] and
    [new Date()] for the [timestamp] are evaluated one after the other in
    the same object literal; both are taken from one reading of the clock. *)
Definition newSms (sender message : string) (st : State) : SmsMessage :=
  {| id := JS.number_toString (clock st);
     sender := sender;
     message := message;
     timestamp := clock st;
     triggered := JS.includes message (keyword st) |}.

(** [setSmsMessages(prev => [newSms, ...prev.slice(0, 9)])]. *)
Definition setSmsMessages (f : list SmsMessage -> list SmsMessage) (st : State) : State :=
  {| keyword := keyword st;
     isAlarmActive := isAlarmActive st;
     smsMessages := f (smsMessages st);
     testSender := testSender st;
     testMessage := testMessage st;
     clock := clock st;
     timers := timers st;
     nextOscillator := nextOscillator st;
     trace := trace st |}.

Definition simulateIncomingSms (sender message : string) (st : State) : State :=
  let sms := newSms sender message st in
  let st1 := setSmsMessages (fun prev => sms :: firstn 9 prev) st in
  if triggered sms then
    toast "🚨 Celular Encontrado!"
          ("Palavra-chave detectada em SMS de " ++ sender)
          "default"
          (activateAlarm st1)
  else st1.

Definition handleTestSms (st : State) : State :=
  if (negb (JS.truthy (testSender st)) || negb (JS.truthy (testMessage st)))%bool then
    toast "Erro" "Preencha o remetente e a mensagem" "destructive" st
  else
    onChangeTestMessage ""
      (onChangeTestSender ""
         (simulateIncomingSms (testSender st) (testMessage st) st)).

(** *** The host's clock and timer queue

    Time passes between two handlers.  [advance_to t] moves the clock to
    [t] and runs, oldest first, the timeout callbacks that are due by then;
    a callback runs at its deadline. *)
Definition due (t : Z) (tm : Timer) : bool := deadline tm <=? t.

Definition advance_to (t : Z) (st : State) : State :=
  if t <? clock st then st
  else
    let fired := filter (due t) (timers st) in
    {| keyword := keyword st;
       isAlarmActive := match fired with [] => isAlarmActive st | _ :: _ => false end;
       smsMessages := smsMessages st;
       testSender := testSender st;
       testMessage := testMessage st;
       clock := t;
       timers := filter (fun tm => negb (due t tm)) (timers st);
       nextOscillator := nextOscillator st;
       trace := trace st ++ map (fun tm => OscillatorStop (oscillator tm)) fired |}.

(** *** Runs of the component *)
Inductive Event :=
| At (t : Z)                          (* time passes until [t] *)
| KeywordInput (value : string)
| SenderInput (value : string)
| MessageInput (value : string)
| ClickSimulate                       (* the "Simular SMS Recebido" button *)
| IncomingSms (sender message : string).

Definition step (e : Event) (st : State) : State :=
  match e with
  | At t => advance_to t st
  | KeywordInput v => onChangeKeyword v st
  | SenderInput v => onChangeTestSender v st
  | MessageInput v => onChangeTestMessage v st
  | ClickSimulate => handleTestSms st
  | IncomingSms s m => simulateIncomingSms s m st
  end.

Fixpoint run (es : list Event) (st : State) : State :=
  match es with
  | [] => st
  | e :: es' => run es' (step e st)
  end.

(** The messages recorded along a run, in order of arrival. *)
Definition recorded_by (e : Event) (st : State) : list SmsMessage :=
  match e with
  | IncomingSms s m => [newSms s m st]
  | ClickSimulate =>
      if (negb (JS.truthy (testSender st)) || negb (JS.truthy (testMessage st)))%bool
      then [] else [newSms (testSender st) (testMessage st) st]
  | _ => []
  end.

Fixpoint recorded (es : list Event) (st : State) : list SmsMessage :=
  match es with
  | [] => []
  | e :: es' => recorded_by e st ++ recorded es' (step e st)
  end.

End PhoneFinderApp.

(** ** GpsTracker *)
Module GpsTracker.

(** Options of a [getCurrentPosition] request. *)
Record PositionOptions := mkOptions {
  enableHighAccuracy : bool;
  timeout : Z;
  maximumAge : Z
}.

Definition options : PositionOptions :=
  {| enableHighAccuracy := true; timeout := 10000; maximumAge := 0 |}.

(** The constants of [GeolocationPositionError]. *)
Definition PERMISSION_DENIED : Z := 1.
Definition POSITION_UNAVAILABLE : Z := 2.
Definition TIMEOUT : Z := 3.

(** The [switch (error.code)] of the error callback. *)
Definition errorMessage (code : Z) : string :=
  if code =? PERMISSION_DENIED then "Permissão de localização negada"
  else if code =? POSITION_UNAVAILABLE then "Localização indisponível"
  else if code =? TIMEOUT then "Timeout ao obter localização"
  else "Erro desconhecido".

Definition unsupportedMessage : string :=
  "Geolocalização não suportada neste navegador".

Record Props := mkProps {
  isAlarmActive : bool
}.

Section Model.

(** JavaScript numbers (doubles) are kept abstract, and so is
    [Math.round]. *)
Variable number : Type.
Variable Math_round : number -> Z.

Record LocationData := mkLocation {
  latitude : number;
  longitude : number;
  accuracy : number;
  timestamp : Z
}.

(** [position.coords] *)
Record Coordinates := mkCoords {
  coords_latitude : number;
  coords_longitude : number;
  coords_accuracy : number
}.

Inductive Effect :=
| CallGetCurrentLocation
| GetCurrentPosition (request : nat) (o : PositionOptions)
| OnLocationFound (l : LocationData)
| Toast (title description variant : string).

(** The dependency array [[isAlarmActive, location]] as React compares
    it: the flag by value, the location by object identity. *)
Definition Deps : Type := bool * option nat.

Record State := mkState {
  (* React state; a held location is an object with an identity *)
  location : option (nat * LocationData);
  isTracking : bool;
  error : string;
  (* dependencies of the effect at the last commit, none before mount *)
  prevDeps : option Deps;
  (* host *)
  geolocation : bool;     (* navigator.geolocation is there *)
  pending : list nat;     (* outstanding getCurrentPosition requests *)
  nextRequest : nat;
  nextObject : nat;
  trace : list Effect
}.

Definition init (supported : bool) : State :=
  {| location := None;
     isTracking := false;
     error := "";
     prevDeps := None;
     geolocation := supported;
     pending := [];
     nextRequest := 0;
     nextObject := 0;
     trace := [] |}.

Definition emit (e : Effect) (st : State) : State :=
  {| location := location st;
     isTracking := isTracking st;
     error := error st;
     prevDeps := prevDeps st;
     geolocation := geolocation st;
     pending := pending st;
     nextRequest := nextRequest st;
     nextObject := nextObject st;
     trace := trace st ++ [e] |}.

Definition setError (msg : string) (st : State) : State :=
  {| location := location st;
     isTracking := isTracking st;
     error := msg;
     prevDeps := prevDeps st;
     geolocation := geolocation st;
     pending := pending st;
     nextRequest := nextRequest st;
     nextObject := nextObject st;
     trace := trace st |}.

Definition setIsTracking (b : bool) (st : State) : State :=
  {| location := location st;
     isTracking := b;
     error := error st;
     prevDeps := prevDeps st;
     geolocation := geolocation st;
     pending := pending st;
     nextRequest := nextRequest st;
     nextObject := nextObject st;
     trace := trace st |}.

(** [setLocation(locationData)] with a freshly built object. *)
Definition setLocation (l : LocationData) (st : State) : State :=
  {| location := Some (nextObject st, l);
     isTracking := isTracking st;
     error := error st;
     prevDeps := prevDeps st;
     geolocation := geolocation st;
     pending := pending st;
     nextRequest := nextRequest st;
     nextObject := S (nextObject st);
     trace := trace st |}.

(** The platform registers a request. *)
Definition issue (st : State) : State :=
  {| location := location st;
     isTracking := isTracking st;
     error := error st;
     prevDeps := prevDeps st;
     geolocation := geolocation st;
     pending := pending st ++ [nextRequest st];
     nextRequest := S (nextRequest st);
     nextObject := nextObject st;
     trace := trace st ++ [GetCurrentPosition (nextRequest st) options] |}.

(** The platform answers request [r]: it is no longer outstanding. *)
Definition settle (r : nat) (st : State) : State :=
  {| location := location st;
     isTracking := isTracking st;
     error := error st;
     prevDeps := prevDeps st;
     geolocation := geolocation st;
     pending := filter (fun r' => negb (Nat.eqb r' r)) (pending st);
     nextRequest := nextRequest st;
     nextObject := nextObject st;
     trace := trace st |}.

Definition setPrevDeps (d : Deps) (st : State) : State :=
  {| location := location st;
     isTracking := isTracking st;
     error := error st;
     prevDeps := Some d;
     geolocation := geolocation st;
     pending := pending st;
     nextRequest := nextRequest st;
     nextObject := nextObject st;
     trace := trace st |}.

(** [getCurrentLocation], up to the call of
    [navigator.geolocation.getCurrentPosition]. *)
Definition getCurrentLocation (st : State) : State :=
  let st := emit CallGetCurrentLocation st in
  if negb (geolocation st) then setError unsupportedMessage st
  else issue (setError "" (setIsTracking true st)).

(** The success callback of request [r], run at time [now]. *)
Definition onSuccess (r : nat) (c : Coordinates) (now : Z) (st : State) : State :=
  let locationData :=
    {| latitude := coords_latitude c;
       longitude := coords_longitude c;
       accuracy := coords_accuracy c;
       timestamp := now |} in
  emit (Toast "📍 Localização Obtida!"
              ("Precisão: " ++ JS.number_toString (Math_round (accuracy locationData)) ++ "m")
              "default")
    (setIsTracking false
       (emit (OnLocationFound locationData)
          (setLocation locationData (settle r st)))).

(** The error callback of request [r]. *)
Definition onError (r : nat) (code : Z) (st : State) : State :=
  let msg := errorMessage code in
  emit (Toast "Erro GPS" msg "destructive")
    (setIsTracking false (setError msg (settle r st))).

(** The button "Obter Localização": [disabled = {isTracking}]. *)
Definition onClick (st : State) : State :=
  if isTracking st then st else getCurrentLocation st.

Definition deps_eqb (a b : Deps) : bool :=
  (Bool.eqb (fst a) (fst b) &&
   match snd a, snd b with
   | None, None => true
   | Some x, Some y => Nat.eqb x y
   | _, _ => false
   end)%bool.

Definition currentDeps (p : Props) (st : State) : Deps :=
  (isAlarmActive p, option_map fst (location st)).

(** The body of the effect:
    [if (isAlarmActive && !location) getCurrentLocation()]. *)
Definition effect (p : Props) (st : State) : State :=
  match location st with
  | None => if isAlarmActive p then getCurrentLocation st else st
  | Some _ => st
  end.

(** A commit of the component rendered with props [p]: the effect runs
    on mount and whenever a dependency changed since the last commit. *)
Definition commit (p : Props) (st : State) : State :=
  let d := currentDeps p st in
  match prevDeps st with
  | Some d' => if deps_eqb d' d then st else effect p (setPrevDeps d st)
  | None => effect p (setPrevDeps d st)
  end.

(** *** Runs of the component *)
Inductive Event :=
| Render (p : Props)                               (* the parent passes new props *)
| Click
| PositionSuccess (r : nat) (c : Coordinates) (now : Z)
| PositionFailure (r : nat) (code : Z).

Definition outstanding (r : nat) (st : State) : bool :=
  existsb (Nat.eqb r) (pending st).

(** One event: the handler runs, then the component commits.  The
    platform answers outstanding requests only. *)
Definition step (e : Event) (w : Props * State) : Props * State :=
  let (p, st) := w in
  match e with
  | Render p' => (p', commit p' st)
  | Click => (p, commit p (onClick st))
  | PositionSuccess r c now =>
      if outstanding r st then (p, commit p (onSuccess r c now st)) else w
  | PositionFailure r code =>
      if outstanding r st then (p, commit p (onError r code st)) else w
  end.

Fixpoint run (es : list Event) (w : Props * State) : Props * State :=
  match es with
  | [] => w
  | e :: es' => run es' (step e w)
  end.

Definition is_call (e : Effect) : bool :=
  match e with CallGetCurrentLocation => true | _ => false end.

Definition is_request (e : Effect) : bool :=
  match e with GetCurrentPosition _ _ => true | _ => false end.

(** How often [getCurrentLocation] was entered, and how many platform
    requests were made. *)
Definition calls (st : State) : nat := List.length (filter is_call (trace st)).
Definition requests (st : State) : nat := List.length (filter is_request (trace st)).

End Model.

Arguments mkLocation {number}.
Arguments mkCoords {number}.
Arguments latitude {number}.
Arguments longitude {number}.
Arguments accuracy {number}.
Arguments timestamp {number}.
Arguments CallGetCurrentLocation {number}.
Arguments GetCurrentPosition {number}.
Arguments OnLocationFound {number}.
Arguments Toast {number}.
Arguments location {number}.
Arguments isTracking {number}.
Arguments error {number}.
Arguments prevDeps {number}.
Arguments geolocation {number}.
Arguments pending {number}.
Arguments nextRequest {number}.
Arguments nextObject {number}.
Arguments trace {number}.
Arguments init {number}.
Arguments emit {number}.
Arguments setError {number}.
Arguments setIsTracking {number}.
Arguments setLocation {number}.
Arguments issue {number}.
Arguments settle {number}.
Arguments setPrevDeps {number}.
Arguments getCurrentLocation {number}.
Arguments onSuccess {number}.
Arguments onError {number}.
Arguments onClick {number}.
Arguments currentDeps {number}.
Arguments effect {number}.
Arguments commit {number}.
Arguments Render {number}.
Arguments Click {number}.
Arguments PositionSuccess {number}.
Arguments PositionFailure {number}.
Arguments outstanding {number}.
Arguments step {number}.
Arguments run {number}.
Arguments calls {number}.
Arguments requests {number}.

(** *** The failure kinds of the specification

    The component itself has no type of failure kinds: a failure is the
    message it stores in [error].  The five kinds of the specification and
    the reason each one stands for are set against it here. *)
Inductive FailureKind :=
| PermissionDenied
| PositionUnavailable
| Timeout
| Unsupported
| Unknown.

Definition reason (k : FailureKind) : string :=
  match k with
  | PermissionDenied => "Permissão de localização negada"
  | PositionUnavailable => "Localização indisponível"
  | Timeout => "Timeout ao obter localização"
  | Unsupported => "Geolocalização não suportada neste navegador"
  | Unknown => "Erro desconhecido"
  end.

(** The kind of a failure the platform reports with [code]. *)
Definition classify (code : Z) : FailureKind :=
  if code =? PERMISSION_DENIED then PermissionDenied
  else if code =? POSITION_UNAVAILABLE then PositionUnavailable
  else if code =? TIMEOUT then Timeout
  else Unknown.

End GpsTracker.

(** ** Notions of the specification *)
Module Spec.

(** [K] occurs in [B] as a contiguous substring. *)
Definition Contains (K B : string) : Prop :=
  exists pre post, B = pre ++ K ++ post.

End Spec.

(** ** Scenarios used to exercise the model *)
Module Scenario.

(** Eleven messages in a row, with the bodies "1" to "11". *)
Definition eleven_sms : list PhoneFinderApp.Event :=
  map (fun k => PhoneFinderApp.IncomingSms "+551199990000" (JS.number_toString k))
      [1; 2; 3; 4; 5; 6; 7; 8; 9; 10; 11].

End Scenario.

(** ** [String.prototype.trim], on the white space of the Basic Latin block *)
Module JSTrim.

Fixpoint trimStart (s : string) : string :=
  match s with
  | EmptyString => EmptyString
  | String c s' => if JS.is_white_space c then trimStart s' else s
  end.

Fixpoint trimEnd (s : string) : string :=
  match s with
  | EmptyString => EmptyString
  | String c s' =>
      match trimEnd s' with
      | EmptyString => if JS.is_white_space c then EmptyString else String c EmptyString
      | t => String c t
      end
  end.

Definition trim (s : string) : string := trimEnd (trimStart s).

End JSTrim.

(** ** GpsTracker: copying and opening the location

    [copyLocationToClipboard] and [openInMaps] read the location held and
    talk to the clipboard and to [window.open]; they change no state of the
    component.  Each is modelled by the list of what it does, given what the
    host answers. *)
Module GpsTrackerShare.

Inductive Effect :=
| ClipboardWrite (text : string)
| WindowOpen (url target : string)
| Toast (title description variant : string)
| ConsoleError (label : string).




Section Model.

(** Numbers stay abstract, with [Math.round], the text a number gives in a
    template literal, and [toLocaleString('pt-BR')] of a date. *)
Variable number : Type.
Variable Math_round : number -> Z.
Variable number_text : number -> string.
Variable toLocaleString : Z -> string.





End Model.

End GpsTrackerShare.

(** ** LocationMap: the token form and the start of a map load

    The component is modelled up to the dynamic import of mapbox-gl in
    [initializeMap].  What follows the import (the map and its marker,
    [setMap]) and the clean-up of the effect, which removes a map, touch
    neither the token nor the form nor the start of a load, and are left
    out. *)
Module LocationMap.

Section Model.

Variable number : Type.

(** The location comes from the parent, as an object with an identity. *)
Record Props := mkProps {
  location : option (nat * GpsTracker.LocationData number)
}.

Inductive Effect :=
| Toast (title description variant : string)
| WindowOpen (url target : string)
| ImportMapbox (token : string) (l : GpsTracker.LocationData number).

(** The dependency array [[mapboxToken, location]]. *)
Definition Deps : Type := string * option nat.

Record State := mkState {
  mapboxToken : string;
  showTokenInput : bool;
  mapContainer : bool;          (* mapContainer.current is an element *)
  prevDeps : option Deps;
  trace : list Effect
}.

Definition init : State :=
  {| mapboxToken := "";
     showTokenInput := false;
     mapContainer := false;
     prevDeps := None;
     trace := [] |}.

Definition emit (e : Effect) (st : State) : State :=
  {| mapboxToken := mapboxToken st;
     showTokenInput := showTokenInput st;
     mapContainer := mapContainer st;
     prevDeps := prevDeps st;
     trace := trace st ++ [e] |}.

Definition setMapboxToken (v : string) (st : State) : State :=
  {| mapboxToken := v;
     showTokenInput := showTokenInput st;
     mapContainer := mapContainer st;
     prevDeps := prevDeps st;
     trace := trace st |}.

Definition setShowTokenInput (b : bool) (st : State) : State :=
  {| mapboxToken := mapboxToken st;
     showTokenInput := b;
     mapContainer := mapContainer st;
     prevDeps := prevDeps st;
     trace := trace st |}.

(** [initializeMap]: the guard, then the import. *)
Definition initializeMap (p : Props) (st : State) : State :=
  match location p with
  | Some (_, l) =>
      if (JS.truthy (mapboxToken st) && mapContainer st)%bool
      then emit (ImportMapbox (mapboxToken st) l) st
      else st
  | None => st
  end.

Definition handleTokenSubmit (p : Props) (st : State) : State :=
  if negb (JS.truthy (JSTrim.trim (mapboxToken st))) then
    emit (Toast "Token Necessário" "Insira seu token público do Mapbox" "destructive") st
  else initializeMap p st.

(** The token form is rendered under [!mapboxToken]. *)
Definition tokenFormShown (st : State) : bool := negb (JS.truthy (mapboxToken st)).

Definition deps_eqb (a b : Deps) : bool :=
  (String.eqb (fst a) (fst b) &&
   match snd a, snd b with
   | None, None => true
   | Some x, Some y => Nat.eqb x y
   | _, _ => false
   end)%bool.

Definition currentDeps (p : Props) (st : State) : Deps :=
  (mapboxToken st, option_map fst (location p)).

(** The body of the effect: [if (mapboxToken && location) initializeMap()]. *)
Definition effect (p : Props) (st : State) : State :=
  match location p with
  | Some _ => if JS.truthy (mapboxToken st) then initializeMap p st else st
  | None => st
  end.

(** A commit: the container, rendered under [location &&], is attached or
    detached, then the effect runs if a dependency changed. *)
Definition commit (p : Props) (st : State) : State :=
  let st1 :=
    {| mapboxToken := mapboxToken st;
       showTokenInput := showTokenInput st;
       mapContainer := match location p with Some _ => true | None => false end;
       prevDeps := Some (currentDeps p st);
       trace := trace st |} in
  match prevDeps st with
  | Some d' => if deps_eqb d' (currentDeps p st) then st1 else effect p st1
  | None => effect p st1
  end.

Inductive Event :=
| Render (p : Props)
| TokenInput (value : string)
| ToggleShow
| ClickGetToken
| ClickLoad.

(** The input and the three buttons exist only while the form is shown. *)
Definition step (e : Event) (w : Props * State) : Props * State :=
  let (p, st) := w in
  match e with
  | Render p' => (p', commit p' st)
  | TokenInput v =>
      if tokenFormShown st then (p, commit p (setMapboxToken v st)) else w
  | ToggleShow =>
      if tokenFormShown st
      then (p, commit p (setShowTokenInput (negb (showTokenInput st)) st)) else w
  | ClickGetToken =>
      if tokenFormShown st
      then (p, commit p (emit (WindowOpen "https://mapbox.com/" "_blank") st)) else w
  | ClickLoad =>
      if tokenFormShown st then (p, commit p (handleTokenSubmit p st)) else w
  end.

Fixpoint run (es : list Event) (w : Props * State) : Props * State :=
  match es with
  | [] => w
  | e :: es' => run es' (step e w)
  end.

(** The tokens with which a load was started, in order. *)
Definition imports (st : State) : list string :=
  flat_map (fun e => match e with ImportMapbox t _ => [t] | _ => [] end) (trace st).

End Model.

Arguments mkProps {number}.
Arguments location {number}.
Arguments Toast {number}.
Arguments WindowOpen {number}.
Arguments ImportMapbox {number}.
Arguments mapboxToken {number}.
Arguments showTokenInput {number}.
Arguments mapContainer {number}.
Arguments prevDeps {number}.
Arguments trace {number}.
Arguments init {number}.
Arguments emit {number}.
Arguments setMapboxToken {number}.
Arguments setShowTokenInput {number}.
Arguments initializeMap {number}.
Arguments handleTokenSubmit {number}.
Arguments tokenFormShown {number}.
Arguments currentDeps {number}.
Arguments effect {number}.
Arguments commit {number}.
Arguments Render {number}.
Arguments TokenInput {number}.
Arguments ToggleShow {number}.
Arguments ClickGetToken {number}.
Arguments ClickLoad {number}.
Arguments step {number}.
Arguments run {number}.
Arguments imports {number}.

End LocationMap.

(** ** White space of ECMAScript, in UTF-8

    The code points [String.prototype.trim] removes (WhiteSpace and
    LineTerminator), read off a string of bytes. *)
Module JSBlank.

(** TAB, LF, VT, FF, CR, SPACE. *)
Definition space1 (x : nat) : bool :=
  ((Nat.leb 9 x && Nat.leb x 13) || Nat.eqb x 32)%bool.

(** U+00A0 NO-BREAK SPACE: C2 A0. *)
Definition space2 (x y : nat) : bool :=
  (Nat.eqb x 194 && Nat.eqb y 160)%bool.

(** U+1680: E1 9A 80.  U+2000..U+200A, U+2028, U+2029, U+202F: E2 80 80..8A,
    E2 80 A8, E2 80 A9, E2 80 AF.  U+205F: E2 81 9F.  U+3000: E3 80 80.
    U+FEFF: EF BB BF. *)
Definition space3 (x y z : nat) : bool :=
  ((Nat.eqb x 225 && Nat.eqb y 154 && Nat.eqb z 128) ||
   (Nat.eqb x 226 && Nat.eqb y 128 &&
    ((Nat.leb 128 z && Nat.leb z 138) || Nat.eqb z 168 || Nat.eqb z 169
     || Nat.eqb z 175)) ||
   (Nat.eqb x 226 && Nat.eqb y 129 && Nat.eqb z 159) ||
   (Nat.eqb x 227 && Nat.eqb y 128 && Nat.eqb z 128) ||
   (Nat.eqb x 239 && Nat.eqb y 187 && Nat.eqb z 191))%bool.

(** [s] is empty or made of white space only. *)
Fixpoint blank (s : string) : bool :=
  match s with
  | EmptyString => true
  | String a s1 =>
      if space1 (nat_of_ascii a) then blank s1
      else
        match s1 with
        | EmptyString => false
        | String b s2 =>
            if space2 (nat_of_ascii a) (nat_of_ascii b) then blank s2
            else
              match s2 with
              | EmptyString => false
              | String c s3 =>
                  if space3 (nat_of_ascii a) (nat_of_ascii b) (nat_of_ascii c)
                  then blank s3
                  else false
              end
        end
  end.

(** U+00A0, as a string. *)
Definition nbsp : string :=
  String (ascii_of_nat 194) (String (ascii_of_nat 160) EmptyString).

(** U+2003 EM SPACE, as a string. *)
Definition em_space : string :=
  String (ascii_of_nat 226)
    (String (ascii_of_nat 128) (String (ascii_of_nat 131) EmptyString)).

End JSBlank.

(** ** Letters of the Basic Latin block *)
Module Text.

Definition is_capital (c : ascii) : bool :=
  let n := nat_of_ascii c in (Nat.leb 65 n && Nat.leb n 90)%bool.

Definition is_small (c : ascii) : bool :=
  let n := nat_of_ascii c in (Nat.leb 97 n && Nat.leb n 122)%bool.

Definition is_letter (c : ascii) : bool := (is_capital c || is_small c)%bool.

(** A byte of the Basic Latin block. *)
Definition is_ascii (c : ascii) : bool := Nat.ltb (nat_of_ascii c) 128.

(** Every byte of [s] is of the Basic Latin block: [s] is a string of
    ASCII characters. *)
Fixpoint ascii_only (s : string) : bool :=
  match s with
  | EmptyString => true
  | String c s' => (is_ascii c && ascii_only s')%bool
  end.

(** Some byte of [s] satisfies [p]. *)
Fixpoint has (p : ascii -> bool) (s : string) : bool :=
  match s with
  | EmptyString => false
  | String c s' => (p c || has p s')%bool
  end.

End Text.

(** ** Reading the trace and the runs of PhoneFinderApp *)
Module AppTrace.

(** The oscillators started, and those stopped, in order. *)
Definition started (tr : list PhoneFinderApp.Effect) : list nat :=
  flat_map (fun e => match e with PhoneFinderApp.OscillatorStart o => [o] | _ => [] end) tr.

Definition stopped (tr : list PhoneFinderApp.Effect) : list nat :=
  flat_map (fun e => match e with PhoneFinderApp.OscillatorStop o => [o] | _ => [] end) tr.

(** The events the page itself can produce: everything but a message
    handed to [simulateIncomingSms] from outside the form. *)
Definition from_page (e : PhoneFinderApp.Event) : bool :=
  match e with
  | PhoneFinderApp.IncomingSms _ _ => false
  | _ => true
  end.

(** Deadlines in the order of the queue. *)
Definition deadline_le (a b : PhoneFinderApp.Timer) : Prop :=
  PhoneFinderApp.deadline a <= PhoneFinderApp.deadline b.

(** Arrival times, most recent first. *)
Definition arrival_ge (a b : PhoneFinderApp.SmsMessage) : Prop :=
  PhoneFinderApp.timestamp b <= PhoneFinderApp.timestamp a.

(** What holds of the timer queue and of the oscillators between two
    handlers: the queue is in the order of the deadlines, every pending
    deadline is ahead of the clock by at most the alarm's duration, an
    active alarm has a timer pending, the oscillators started and not yet
    stopped are those of the pending timers, and oscillators are numbered
    in the order of their creation. *)
Definition queue_ok (st : PhoneFinderApp.State) : Prop :=
  StronglySorted deadline_le (PhoneFinderApp.timers st) /\
  Forall (fun tm => PhoneFinderApp.clock st < PhoneFinderApp.deadline tm
                    <= PhoneFinderApp.clock st + PhoneFinderApp.ALARM_MS)
         (PhoneFinderApp.timers st) /\
  (PhoneFinderApp.isAlarmActive st = true -> PhoneFinderApp.timers st <> []) /\
  started (PhoneFinderApp.trace st)
  = (stopped (PhoneFinderApp.trace st)
     ++ map PhoneFinderApp.oscillator (PhoneFinderApp.timers st))%list /\
  started (PhoneFinderApp.trace st) = seq 0 (PhoneFinderApp.nextOscillator st).

(** What holds of the feed: most recent first, no message from the future,
    and every [id] is the arrival time in decimal. *)
Definition feed_ok (st : PhoneFinderApp.State) : Prop :=
  StronglySorted arrival_ge (PhoneFinderApp.smsMessages st) /\
  Forall (fun m => PhoneFinderApp.timestamp m <= PhoneFinderApp.clock st /\
                   PhoneFinderApp.id m
                   = JS.number_toString (PhoneFinderApp.timestamp m))
         (PhoneFinderApp.smsMessages st).

End AppTrace.

(** ** Reading the trace and the runs of GpsTracker *)
Module TrackerTrace.

Section Reading.

Variable number : Type.

(** The location last handed to [onLocationFound], if any. *)
Definition last_found (tr : list (GpsTracker.Effect number))
  : option (GpsTracker.LocationData number) :=
  fold_left (fun acc e => match e with
                          | GpsTracker.OnLocationFound l => Some l
                          | _ => acc
                          end) tr None.

(** Every request in the trace was made with the component's options. *)
Definition request_options_ok (e : GpsTracker.Effect number) : Prop :=
  match e with
  | GpsTracker.GetCurrentPosition _ o => o = GpsTracker.options
  | _ => True
  end.

(** The clicks on the button in a list of events. *)
Definition clicks (es : list (GpsTracker.Event number)) : nat :=
  List.length (filter (fun e => match e with GpsTracker.Click => true | _ => false end) es).

(** What holds of the component between two events: outstanding requests
    are pairwise different and were all issued, each carries the
    component's options, the in-progress flag is set only while a request
    is outstanding, the parent was told of the location held, on a platform
    with geolocation every call made one request, and on one without there
    was no request, no progress and no location, and the only error message
    is the one that says so. *)
Definition tracker_ok (st : GpsTracker.State number) : Prop :=
  NoDup (GpsTracker.pending st) /\
  Forall (fun r => (r < GpsTracker.nextRequest st)%nat) (GpsTracker.pending st) /\
  GpsTracker.requests st = GpsTracker.nextRequest st /\
  Forall request_options_ok (GpsTracker.trace st) /\
  (GpsTracker.isTracking st = true -> GpsTracker.pending st <> []) /\
  option_map snd (GpsTracker.location st) = last_found (GpsTracker.trace st) /\
  (GpsTracker.geolocation st = true ->
   GpsTracker.requests st = GpsTracker.calls st) /\
  (GpsTracker.geolocation st = false ->
   GpsTracker.requests st = 0%nat /\
   GpsTracker.isTracking st = false /\
   GpsTracker.location st = None /\
   (GpsTracker.error st = "" \/
    GpsTracker.error st = GpsTracker.unsupportedMessage)).

End Reading.

Arguments last_found {number}.
Arguments request_options_ok {number}.
Arguments clicks {number}.
Arguments tracker_ok {number}.

End TrackerTrace.

(** * Properties *)

(** ** Strings *)
Section StringFacts.

Lemma prefix_app_iff (k s : string) :
  String.prefix k s = true <-> exists post, s = k ++ post.
Proof.
  revert s; induction k as [|c k IH]; intros s; simpl.
  - split; [intros _; now exists s | intros _; now destruct s].
  - destruct s as [|d s].
    + split; [discriminate | intros [post H]; discriminate].
    + simpl. destruct (ascii_dec c d) as [->|Hcd].
      * rewrite IH. split; intros [post H]; exists post.
        -- now rewrite H.
        -- now injection H.
      * split; [discriminate|].
        intros [post H]. injection H as Hc _. now elim Hcd.
Qed.

Lemma StringIndexOf_eq (s k : string) (i : nat) :
  JS.StringIndexOf s k i =
  if String.prefix k s then Some i
  else match s with
       | EmptyString => None
       | String _ s' => JS.StringIndexOf s' k (S i)
       end.
Proof. destruct s; reflexivity. Qed.

Lemma StringIndexOf_Some (s k : string) (i : nat) :
  (exists j, JS.StringIndexOf s k i = Some j) <-> Spec.Contains k s.
Proof.
  revert i; induction s as [|c s IH]; intros i; rewrite StringIndexOf_eq.
  - destruct (String.prefix k "") eqn:Hp.
    + split; [intros _ | intros _; now exists i].
      apply prefix_app_iff in Hp as [post Hp]. now exists "", post.
    + split; [intros [j Hj]; discriminate|].
      intros [pre [post H]].
      destruct pre; [|discriminate]. simpl in H.
      assert (String.prefix k "" = true) by (apply prefix_app_iff; now exists post).
      congruence.
  - destruct (String.prefix k (String c s)) eqn:Hp.
    + split; [intros _ | intros _; now exists i].
      apply prefix_app_iff in Hp as [post Hp]. now exists "", post.
    + rewrite IH. split.
      * intros [pre [post H]]. exists (String c pre), post. simpl. now rewrite H.
      * intros [pre [post H]]. destruct pre as [|d pre]; simpl in H.
        -- assert (String.prefix k (String c s) = true)
             by (apply prefix_app_iff; now exists post).
           congruence.
        -- injection H as _ H. now exists pre, post.
Qed.

Lemma includes_spec (B K : string) :
  JS.includes B K = true <-> Spec.Contains K B.
Proof.
  unfold JS.includes. rewrite <- (StringIndexOf_Some B K 0).
  destruct (JS.StringIndexOf B K 0) as [j|].
  - split; [intros _; now exists j | reflexivity].
  - split; [discriminate | intros [j Hj]; discriminate].
Qed.

Lemma includes_empty (B : string) : JS.includes B "" = true.
Proof. apply includes_spec. now exists "", B. Qed.

Lemma upper_ascii_white_space (c : ascii) :
  JS.is_white_space c = true -> JS.upper_ascii c = c.
Proof.
  unfold JS.is_white_space, JS.upper_ascii. intros H.
  destruct (Nat.leb 97 (nat_of_ascii c)) eqn:H97; simpl; [|reflexivity].
  destruct (Nat.leb (nat_of_ascii c) 122) eqn:H122; [|reflexivity].
  apply Nat.leb_le in H97.
  apply orb_true_iff in H as [H|H].
  - apply andb_true_iff in H as [_ H]. apply Nat.leb_le in H. lia.
  - apply Nat.eqb_eq in H. lia.
Qed.

Lemma toUpperCase_whitespace_only (s : string) :
  JS.whitespace_only s = true -> JS.toUpperCase s = s.
Proof.
  induction s as [|c s IH]; simpl; [reflexivity|].
  intros H. apply andb_true_iff in H as [Hc Hs].
  now rewrite upper_ascii_white_space, IH.
Qed.

Lemma number_toString_inj (n m : Z) :
  JS.number_toString n = JS.number_toString m -> n = m.
Proof.
  unfold JS.number_toString. intros H.
  apply DecimalZ.to_int_inj.
  assert (E : NilEmpty.int_of_string (NilEmpty.string_of_int (Z.to_int n))
              = NilEmpty.int_of_string (NilEmpty.string_of_int (Z.to_int m)))
    by now rewrite H.
  rewrite !NilEmpty.isi in E. now injection E.
Qed.

Lemma upper_ascii_other (c : ascii) :
  (nat_of_ascii c < 97 \/ 122 < nat_of_ascii c)%nat -> JS.upper_ascii c = c.
Proof.
  intros H. unfold JS.upper_ascii.
  destruct (Nat.leb 97 (nat_of_ascii c)) eqn:A; [|reflexivity].
  destruct (Nat.leb (nat_of_ascii c) 122) eqn:B; [|reflexivity].
  apply Nat.leb_le in A, B. lia.
Qed.

Lemma space1_small (x : nat) : JSBlank.space1 x = true -> (x < 97)%nat.
Proof.
  unfold JSBlank.space1. intros H. apply orb_true_iff in H as [H|H].
  - apply andb_true_iff in H as [_ H]. apply Nat.leb_le in H. lia.
  - apply Nat.eqb_eq in H. lia.
Qed.

Lemma space2_high (x y : nat) :
  JSBlank.space2 x y = true -> (122 < x /\ 122 < y)%nat.
Proof.
  unfold JSBlank.space2. intros H. apply andb_true_iff in H as [Hx Hy].
  apply Nat.eqb_eq in Hx, Hy. lia.
Qed.

Lemma space3_high (x y z : nat) :
  JSBlank.space3 x y z = true -> (122 < x /\ 122 < y /\ 122 < z)%nat.
Proof.
  unfold JSBlank.space3. intros H.
  repeat match goal with
         | H : (_ || _)%bool = true |- _ => apply orb_true_iff in H as [H|H]
         | H : (_ && _)%bool = true |- _ =>
             let H1 := fresh H in apply andb_true_iff in H as [H H1]
         | H : Nat.eqb _ _ = true |- _ => apply Nat.eqb_eq in H
         | H : Nat.leb _ _ = true |- _ => apply Nat.leb_le in H
         end; lia.
Qed.

Lemma blank_eq (s : string) :
  JSBlank.blank s =
  match s with
  | EmptyString => true
  | String a s1 =>
      if JSBlank.space1 (nat_of_ascii a) then JSBlank.blank s1
      else
        match s1 with
        | EmptyString => false
        | String b s2 =>
            if JSBlank.space2 (nat_of_ascii a) (nat_of_ascii b) then JSBlank.blank s2
            else
              match s2 with
              | EmptyString => false
              | String c s3 =>
                  if JSBlank.space3 (nat_of_ascii a) (nat_of_ascii b) (nat_of_ascii c)
                  then JSBlank.blank s3
                  else false
              end
        end
  end.
Proof. destruct s; reflexivity. Qed.

(** Upper-casing leaves white space as it is. *)
Lemma toUpperCase_blank (s : string) :
  JSBlank.blank s = true -> JS.toUpperCase s = s.
Proof.
  assert (G : forall n s, (String.length s <= n)%nat ->
                          JSBlank.blank s = true -> JS.toUpperCase s = s).
  { induction n as [|n IH]; intros t Hlen Hb.
    - destruct t; [reflexivity | cbn in Hlen; lia].
    - rewrite blank_eq in Hb. destruct t as [|a s1]; [reflexivity|].
      cbn [String.length] in Hlen.
      destruct (JSBlank.space1 (nat_of_ascii a)) eqn:S1.
      + apply space1_small in S1. cbn [JS.toUpperCase].
        rewrite upper_ascii_other by lia. rewrite IH; [reflexivity | lia | exact Hb].
      + destruct s1 as [|b s2]; [discriminate|]. cbn [String.length] in Hlen.
        destruct (JSBlank.space2 (nat_of_ascii a) (nat_of_ascii b)) eqn:S2.
        * apply space2_high in S2. cbn [JS.toUpperCase].
          rewrite !upper_ascii_other by lia.
          rewrite IH; [reflexivity | lia | exact Hb].
        * destruct s2 as [|c s3]; [discriminate|]. cbn [String.length] in Hlen.
          destruct (JSBlank.space3 (nat_of_ascii a) (nat_of_ascii b) (nat_of_ascii c))
            eqn:S3; [|discriminate].
          apply space3_high in S3. cbn [JS.toUpperCase].
          rewrite !upper_ascii_other by lia.
          rewrite IH; [reflexivity | lia | exact Hb]. }
  intros H. now apply (G (String.length s)).
Qed.

End StringFacts.

(** ** PhoneFinderApp: matching, keyword and inbox feed *)
Section AppFeed.

Import PhoneFinderApp.

Lemma simulateIncomingSms_feed (s m : string) (st : State) :
  smsMessages (simulateIncomingSms s m st)
  = newSms s m st :: firstn 9 (smsMessages st).
Proof.
  unfold simulateIncomingSms.
  destruct (triggered (newSms s m st)); reflexivity.
Qed.

Lemma simulateIncomingSms_clock (s m : string) (st : State) :
  clock (simulateIncomingSms s m st) = clock st.
Proof.
  unfold simulateIncomingSms.
  destruct (triggered (newSms s m st)); reflexivity.
Qed.

Lemma simulateIncomingSms_triggered (s m : string) (st : State) :
  triggered (newSms s m st) = true ->
  simulateIncomingSms s m st
  = toast "🚨 Celular Encontrado!"
          ("Palavra-chave detectada em SMS de " ++ s) "default"
      (activateAlarm
         (setSmsMessages (fun prev => newSms s m st :: firstn 9 prev) st)).
Proof. unfold simulateIncomingSms. now intros ->. Qed.

Lemma simulateIncomingSms_not_triggered (s m : string) (st : State) :
  triggered (newSms s m st) = false ->
  simulateIncomingSms s m st
  = setSmsMessages (fun prev => newSms s m st :: firstn 9 prev) st.
Proof. unfold simulateIncomingSms. now intros ->. Qed.

Lemma advance_to_feed (t : Z) (st : State) :
  smsMessages (advance_to t st) = smsMessages st.
Proof. unfold advance_to. destruct (t <? clock st); reflexivity. Qed.

(** Every event leaves the feed alone or puts one message in front of its
    first nine entries. *)
Lemma step_feed (e : Event) (st : State) :
  (recorded_by e st = [] /\ smsMessages (step e st) = smsMessages st) \/
  (exists m, recorded_by e st = [m] /\
             smsMessages (step e st) = m :: firstn 9 (smsMessages st)).
Proof.
  destruct e as [t|v|v|v| |s m]; simpl.
  - left. split; [reflexivity | apply advance_to_feed].
  - now left.
  - now left.
  - now left.
  - unfold handleTestSms.
    destruct (negb (JS.truthy (testSender st)) || negb (JS.truthy (testMessage st)))%bool.
    + now left.
    + right. eexists. split; [reflexivity|]. simpl.
      apply simulateIncomingSms_feed.
  - right. eexists. split; [reflexivity | apply simulateIncomingSms_feed].
Qed.

Lemma firstn_app_firstn {A} (n k : nat) (R X : list A) :
  (n <= List.length R + k)%nat ->
  firstn n (R ++ firstn k X) = firstn n (R ++ X).
Proof.
  intros H. rewrite !firstn_app, firstn_firstn.
  replace (Nat.min (n - List.length R) k) with (n - List.length R)%nat by lia.
  reflexivity.
Qed.

Lemma run_feed (es : list Event) (st : State) :
  (List.length (smsMessages st) <= 10)%nat ->
  smsMessages (run es st) = firstn 10 (rev (recorded es st) ++ smsMessages st).
Proof.
  revert st; induction es as [|e es IH]; intros st Hlen; cbn [run recorded].
  - cbn [rev app]. symmetry. now apply firstn_all2.
  - destruct (step_feed e st) as [[Hr Hf] | [m [Hr Hf]]].
    + rewrite IH by (rewrite Hf; exact Hlen).
      now rewrite Hr, Hf.
    + rewrite IH.
      * rewrite Hr, Hf, List.rev_app_distr. cbn [rev app].
        rewrite <- (List.app_assoc _ [m] (smsMessages st)).
        change (m :: firstn 9 (smsMessages st)) with ([m] ++ firstn 9 (smsMessages st))%list.
        rewrite !List.app_assoc. apply firstn_app_firstn.
        rewrite List.length_app. cbn [List.length]. lia.
      * rewrite Hf. cbn [List.length]. rewrite List.length_firstn. lia.
Qed.

Lemma run_feed_init (now : Z) (es : list Event) :
  smsMessages (run es (init now)) = firstn 10 (rev (recorded es (init now))).
Proof.
  rewrite run_feed by (cbn; lia). cbn [init smsMessages]. now rewrite List.app_nil_r.
Qed.

End AppFeed.

Section AppClaims.

Import PhoneFinderApp.

(** C1.  The message recorded by [simulateIncomingSms] carries the body it
    was given, and its [triggered] flag is true if and only if the body
    contains the keyword of that moment as a contiguous substring, bytes
    compared as they are; this holds for every keyword, so also for the
    non-empty upper-cased ones the keyword input stores.  After the input
    was set to [value], the keyword matched against is [value] in upper
    case.  A body with the keyword in lower case only does not match. *)
Theorem C1_match_iff_substring :
  (forall B K, JS.includes B K = true <-> Spec.Contains K B) /\
  (forall sender B st,
      hd_error (smsMessages (simulateIncomingSms sender B st))
      = Some (newSms sender B st) /\
      message (newSms sender B st) = B /\
      (triggered (newSms sender B st) = true <-> Spec.Contains (keyword st) B)) /\
  (forall value sender B st,
      triggered (newSms sender B (onChangeKeyword value st)) = true
      <-> Spec.Contains (JS.toUpperCase value) B) /\
  JS.toUpperCase "acharcelular123" = "ACHARCELULAR123" /\
  JS.includes "ache meu acharcelular123 celular" "ACHARCELULAR123" = false /\
  JS.includes "ache meu ACHARCELULAR123 celular" "ACHARCELULAR123" = true.
Proof.
  split; [exact includes_spec|].
  split; [|split; [|repeat split; reflexivity]].
  - intros sender B st. split; [now rewrite simulateIncomingSms_feed|].
    split; [reflexivity|]. apply includes_spec.
  - intros value sender B st. apply includes_spec.
Qed.

(** C2, as the code has it.  The keyword input rejects nothing: an update
    whose new value is empty or made of white space only (any white space
    that [trim] knows, not only that of the Basic Latin block) is stored as
    it is, upper-casing leaving it unchanged; every other part of the state
    (alarm flag, feed, form fields, clock, timers, oscillators, trace) is
    what it was; and messages recorded afterwards are matched against the
    new keyword. *)
Theorem C2_blank_keyword_is_stored (value : string) (st : State)
    (Hblank : JSBlank.blank value = true) :
  onChangeKeyword value st
  = {| keyword := value;
       isAlarmActive := isAlarmActive st;
       smsMessages := smsMessages st;
       testSender := testSender st;
       testMessage := testMessage st;
       clock := clock st;
       timers := timers st;
       nextOscillator := nextOscillator st;
       trace := trace st |} /\
  forall sender body,
    triggered (newSms sender body (onChangeKeyword value st))
    = JS.includes body value.
Proof.
  assert (E : JS.toUpperCase value = value) by now apply toUpperCase_blank.
  split.
  - unfold onChangeKeyword. now rewrite E.
  - intros sender body. unfold newSms, onChangeKeyword. cbn [triggered keyword].
    now rewrite E.
Qed.

Lemma C2_blank_keyword_is_stored_witness :
  let value := (" " ++ JSBlank.nbsp ++ JSBlank.em_space)%string in
  JSBlank.blank value = true /\
  keyword (onChangeKeyword value (init 0)) = value /\
  timers (onChangeKeyword value (activateAlarm (init 0)))
  = timers (activateAlarm (init 0)).
Proof.
  intros value.
  assert (H : JSBlank.blank value = true) by reflexivity.
  split; [exact H|]. split.
  - now rewrite (proj1 (C2_blank_keyword_is_stored value (init 0) H)).
  - now rewrite (proj1 (C2_blank_keyword_is_stored value (activateAlarm (init 0)) H)).
Defined.

(** C2, as stated, fails: from the initial keyword, an update to the empty
    string (and one to a blank string) goes through, the prior keyword is
    gone, and a message that did not match before now does. *)
Lemma C2_empty_update_not_rejected :
  JS.whitespace_only "" = true /\
  keyword (init 0) = "ACHARCELULAR123" /\
  keyword (onChangeKeyword "" (init 0)) = "" /\
  keyword (onChangeKeyword "  " (init 0)) = "  " /\
  onChangeKeyword "" (init 0) <> init 0 /\
  triggered (newSms "unknown" "oi, tudo bem?" (init 0)) = false /\
  triggered (newSms "unknown" "oi, tudo bem?" (onChangeKeyword "" (init 0))) = true.
Proof. repeat split; try reflexivity. discriminate. Qed.

(** C4.  After a run in which more than ten messages were recorded, the
    feed is the ten most recent of them, most recent first; the feed of
    every prefix of the run has at most ten entries; and recording into a
    full feed drops its last, oldest, entry. *)
Theorem C4_feed_is_ten_most_recent (now : Z) (es : list Event)
    (HN : (10 < List.length (recorded es (init now)))%nat) :
  let arrived := recorded es (init now) in
  let feed := smsMessages (run es (init now)) in
  feed = firstn 10 (rev arrived) /\
  feed = rev (skipn (List.length arrived - 10) arrived) /\
  List.length feed = 10%nat /\
  (forall es1 es2, es = (es1 ++ es2)%list ->
     (List.length (smsMessages (run es1 (init now))) <= 10)%nat) /\
  (forall s m st, List.length (smsMessages st) = 10%nat ->
     smsMessages (simulateIncomingSms s m st)
     = newSms s m st :: removelast (smsMessages st)).
Proof.
  intros arrived feed. subst arrived feed.
  rewrite run_feed_init.
  split; [reflexivity|].
  split; [apply firstn_rev|].
  split; [rewrite List.length_firstn, List.length_rev; lia|].
  split.
  - intros es1 es2 _. rewrite run_feed_init, List.length_firstn. lia.
  - intros s m st Hlen. rewrite simulateIncomingSms_feed.
    rewrite removelast_firstn_len, Hlen. reflexivity.
Qed.

Lemma C4_feed_is_ten_most_recent_witness :
  (10 < List.length (recorded Scenario.eleven_sms (init 0)))%nat /\
  map message (smsMessages (run Scenario.eleven_sms (init 0)))
  = ["11"; "10"; "9"; "8"; "7"; "6"; "5"; "4"; "3"; "2"].
Proof.
  assert (H : (10 < List.length (recorded Scenario.eleven_sms (init 0)))%nat)
    by (vm_compute; lia).
  split; [exact H|].
  rewrite (proj1 (C4_feed_is_ten_most_recent 0 Scenario.eleven_sms H)).
  reflexivity.
Defined.

(** The [id] of a message is its arrival time in decimal: two messages have
    the same [id] exactly when they arrived in the same millisecond. *)
Lemma newSms_id_eq_iff (s1 m1 s2 m2 : string) (st1 st2 : State) :
  id (newSms s1 m1 st1) = id (newSms s2 m2 st2) <-> clock st1 = clock st2.
Proof.
  unfold newSms. cbn [id]. split.
  - apply number_toString_inj.
  - now intros ->.
Qed.

(** C9: the code at the failing input.  A message recorded right after
    another, the clock still showing the same millisecond, gets the [id] of
    the first; with "first" and "second" recorded at 1700000000000 ms the
    feed holds two different messages that share the [id] "1700000000000". *)
Theorem C9_ids_collide_within_a_millisecond :
  (forall s1 m1 s2 m2 st,
      id (newSms s2 m2 (simulateIncomingSms s1 m1 st)) = id (newSms s1 m1 st)) /\
  (let st1 := simulateIncomingSms "+551199990000" "first" (init 1700000000000) in
   let st2 := simulateIncomingSms "+551199990000" "second" st1 in
   exists m2 m1,
     smsMessages st2 = [m2; m1] /\
     message m1 = "first" /\ message m2 = "second" /\
     m1 <> m2 /\
     id m1 = "1700000000000" /\ id m2 = "1700000000000").
Proof.
  split.
  - intros s1 m1 s2 m2 st. apply newSms_id_eq_iff, simulateIncomingSms_clock.
  - eexists. eexists. split; [reflexivity|].
    repeat split; discriminate.
Qed.

(** C10.  With the empty string as keyword, every body matches: the
    recorded message is flagged and [activateAlarm] runs. *)
Theorem C10_empty_keyword_matches_all (st : State) (Hempty : keyword st = "")
    (sender body : string) :
  triggered (newSms sender body st) = true /\
  simulateIncomingSms sender body st
  = toast "🚨 Celular Encontrado!"
          ("Palavra-chave detectada em SMS de " ++ sender) "default"
      (activateAlarm
         (setSmsMessages (fun prev => newSms sender body st :: firstn 9 prev) st)) /\
  isAlarmActive (simulateIncomingSms sender body st) = true /\
  In CallActivateAlarm (trace (simulateIncomingSms sender body st)).
Proof.
  assert (T : triggered (newSms sender body st) = true)
    by (unfold newSms; cbn [triggered]; rewrite Hempty; apply includes_empty).
  split; [exact T|].
  rewrite (simulateIncomingSms_triggered _ _ _ T).
  split; [reflexivity|]. split; [reflexivity|].
  cbn [toast activateAlarm trace].
  apply in_or_app. left. apply in_or_app. right. now left.
Qed.

Lemma C10_empty_keyword_matches_all_witness :
  keyword (onChangeKeyword "" (init 0)) = "" /\
  isAlarmActive
    (simulateIncomingSms "unknown" "oi, tudo bem?" (onChangeKeyword "" (init 0)))
  = true.
Proof.
  split; [reflexivity|].
  exact (proj1 (proj2 (proj2
    (C10_empty_keyword_matches_all (onChangeKeyword "" (init 0)) eq_refl
       "unknown" "oi, tudo bem?")))).
Defined.

End AppClaims.

(** ** PhoneFinderApp: the alarm and its timers *)
Section AppAlarm.

Import PhoneFinderApp.

Lemma advance_to_later (t : Z) (st : State) :
  clock st <= t ->
  advance_to t st =
  {| keyword := keyword st;
     isAlarmActive :=
       match filter (due t) (timers st) with
       | [] => isAlarmActive st
       | _ :: _ => false
       end;
     smsMessages := smsMessages st;
     testSender := testSender st;
     testMessage := testMessage st;
     clock := t;
     timers := filter (fun tm => negb (due t tm)) (timers st);
     nextOscillator := nextOscillator st;
     trace := trace st
              ++ map (fun tm => OscillatorStop (oscillator tm))
                     (filter (due t) (timers st)) |}.
Proof.
  intros H. unfold advance_to.
  destruct (Z.ltb_spec t (clock st)); [lia | reflexivity].
Qed.

Lemma activateAlarm_timers (st : State) :
  timers (activateAlarm st)
  = (timers st
     ++ [ {| deadline := clock st + 3000; oscillator := nextOscillator st |} ])%list.
Proof. reflexivity. Qed.

(** No timer is due before the clock reaches a deadline. *)
Lemma filter_due_none (t : Z) (l : list Timer) :
  Forall (fun tm => t < deadline tm) l -> filter (due t) l = [].
Proof.
  induction 1 as [|tm l Htm _ IH]; simpl; [reflexivity|].
  unfold due at 1. destruct (Z.leb_spec (deadline tm) t); [lia | exact IH].
Qed.

Lemma filter_not_due_all (t : Z) (l : list Timer) :
  Forall (fun tm => t < deadline tm) l ->
  filter (fun tm => negb (due t tm)) l = l.
Proof.
  induction 1 as [|tm l Htm _ IH]; simpl; [reflexivity|].
  unfold due at 1. destruct (Z.leb_spec (deadline tm) t); [lia|].
  simpl. now rewrite IH.
Qed.

(** While no pending timer is due, passing time leaves the flag alone. *)
Lemma advance_to_quiet (t : Z) (st : State) :
  clock st <= t ->
  Forall (fun tm => t < deadline tm) (timers st) ->
  isAlarmActive (advance_to t st) = isAlarmActive st /\
  timers (advance_to t st) = timers st /\
  clock (advance_to t st) = t /\
  nextOscillator (advance_to t st) = nextOscillator st.
Proof.
  intros Hc Hq. rewrite advance_to_later by exact Hc. cbn.
  rewrite filter_due_none, filter_not_due_all by exact Hq. auto.
Qed.

(** As soon as one pending timer is due, the flag is off. *)
Lemma advance_to_fires (t : Z) (st : State) (tm : Timer) :
  clock st <= t -> In tm (timers st) -> deadline tm <= t ->
  isAlarmActive (advance_to t st) = false.
Proof.
  intros Hc Hin Hd. rewrite advance_to_later by exact Hc. cbn.
  assert (Hf : In tm (filter (due t) (timers st))).
  { apply filter_In. split; [exact Hin|]. unfold due. now apply Z.leb_le. }
  destruct (filter (due t) (timers st)); [contradiction | reflexivity].
Qed.

(** C7, as the code has it.  When no countdown of an earlier trigger is
    pending, triggering the alarm while it is idle makes it active at
    once, it stays active for the 3000 ms that follow, and is idle from
    then on; the flag is a boolean, there is no third state. *)
Theorem C7_alarm_lasts_three_seconds (st : State)
    (Hidle : isAlarmActive st = false) (Hnone : timers st = []) :
  let t0 := clock st in
  isAlarmActive (activateAlarm st) = true /\
  (forall t, t0 <= t < t0 + 3000 ->
     isAlarmActive (advance_to t (activateAlarm st)) = true) /\
  (forall t, t0 + 3000 <= t ->
     isAlarmActive (advance_to t (activateAlarm st)) = false).
Proof.
  intros t0. split; [reflexivity|]. split.
  - intros t Ht.
    apply (advance_to_quiet t (activateAlarm st)); [cbn; lia|].
    rewrite activateAlarm_timers, Hnone. cbn.
    constructor; [cbn; lia | constructor].
  - intros t Ht.
    apply advance_to_fires
      with (tm := {| deadline := clock st + 3000; oscillator := nextOscillator st |}).
    + cbn. lia.
    + rewrite activateAlarm_timers. apply in_or_app. right. now left.
    + cbn. lia.
Qed.

Lemma C7_alarm_lasts_three_seconds_witness :
  isAlarmActive (init 0) = false /\ timers (init 0) = [] /\
  isAlarmActive (advance_to 2999 (activateAlarm (init 0))) = true /\
  isAlarmActive (advance_to 3000 (activateAlarm (init 0))) = false.
Proof.
  split; [reflexivity|]. split; [reflexivity|].
  pose proof (C7_alarm_lasts_three_seconds (init 0) eq_refl eq_refl) as [_ [Hin Hout]].
  split; [apply Hin | apply Hout]; cbn; lia.
Defined.

(** C7, as stated, fails.  Three matching messages at 0 ms, 2000 ms and
    3500 ms: the alarm is idle when the third arrives, becomes active, and
    is switched off at 5000 ms by the timer of the second, 1500 ms after
    it became active. *)
Lemma C7_stale_timer_ends_alarm_early :
  let sms := simulateIncomingSms "+551199990000" "ACHARCELULAR123" in
  let s1 := sms (init 0) in
  let s2 := sms (advance_to 2000 s1) in
  let s3 := advance_to 3500 s2 in
  let s4 := sms s3 in
  isAlarmActive s3 = false /\
  isAlarmActive s4 = true /\ clock s4 = 3500 /\
  isAlarmActive (advance_to 4999 s4) = true /\
  isAlarmActive (advance_to 5000 s4) = false.
Proof. vm_compute. repeat split. Qed.




End AppAlarm.

(** ** GpsTracker *)
Section TrackerFacts.

Import GpsTracker.

Variable number : Type.
Lemma deps_eqb_eq (a b : Deps) : deps_eqb a b = true <-> a = b.
Proof.
  destruct a as [x [i|]], b as [y [j|]]; unfold deps_eqb; cbn [fst snd].
  - rewrite andb_true_iff, Bool.eqb_true_iff, Nat.eqb_eq.
    split; [intros [-> ->]; reflexivity | intros H; injection H; auto].
  - rewrite andb_false_r. split; discriminate.
  - rewrite andb_false_r. split; discriminate.
  - rewrite andb_true_r, Bool.eqb_true_iff.
    split; [intros ->; reflexivity | intros H; injection H; auto].
Qed.

Lemma getCurrentLocation_location (st : State number) :
  location (getCurrentLocation st) = location st.
Proof. unfold getCurrentLocation. cbn. destruct (geolocation st); reflexivity. Qed.

Lemma getCurrentLocation_prevDeps (st : State number) :
  prevDeps (getCurrentLocation st) = prevDeps st.
Proof. unfold getCurrentLocation. cbn. destruct (geolocation st); reflexivity. Qed.

Lemma getCurrentLocation_calls (st : State number) :
  calls (getCurrentLocation st) = S (calls st).
Proof.
  unfold getCurrentLocation, calls. cbn. destruct (geolocation st); cbn.
  - rewrite !filter_app, !List.length_app. cbn. lia.
  - rewrite !filter_app, !List.length_app. cbn. lia.
Qed.

(** On a platform with geolocation the call makes one request, whatever
    the state. *)
Lemma getCurrentLocation_supported (st : State number) :
  geolocation st = true ->
  isTracking (getCurrentLocation st) = true /\
  error (getCurrentLocation st) = "" /\
  pending (getCurrentLocation st) = (pending st ++ [nextRequest st])%list /\
  requests (getCurrentLocation st) = S (requests st).
Proof.
  intros H. unfold getCurrentLocation, requests. cbn. rewrite H. cbn.
  repeat split. rewrite !filter_app, !List.length_app. cbn. lia.
Qed.

(** Without geolocation the call stores the message and asks nothing. *)
Lemma getCurrentLocation_unsupported (st : State number) :
  geolocation st = false ->
  error (getCurrentLocation st) = unsupportedMessage /\
  isTracking (getCurrentLocation st) = isTracking st /\
  pending (getCurrentLocation st) = pending st /\
  requests (getCurrentLocation st) = requests st.
Proof.
  intros H. unfold getCurrentLocation, requests. cbn. rewrite H. cbn.
  repeat split. rewrite !filter_app, !List.length_app. cbn. lia.
Qed.

(** A commit with unchanged dependencies does nothing. *)
Lemma commit_unchanged (p : Props) (st : State number) :
  prevDeps st = Some (currentDeps p st) -> commit p st = st.
Proof.
  intros H. unfold commit. rewrite H.
  now rewrite (proj2 (deps_eqb_eq _ _) eq_refl).
Qed.

Lemma effect_prevDeps (p : Props) (st : State number) :
  prevDeps (effect p st) = prevDeps st.
Proof.
  unfold effect. destruct (location st); [reflexivity|].
  destruct (isAlarmActive p); [apply getCurrentLocation_prevDeps | reflexivity].
Qed.

Lemma effect_location (p : Props) (st : State number) :
  location (effect p st) = location st.
Proof.
  unfold effect. destruct (location st) eqn:E; [exact E|].
  destruct (isAlarmActive p); [now rewrite getCurrentLocation_location | exact E].
Qed.

(** After a commit the stored dependencies are the current ones. *)
Lemma commit_prevDeps (p : Props) (st : State number) :
  prevDeps (commit p st) = Some (currentDeps p (commit p st)).
Proof.
  unfold commit. destruct (prevDeps st) as [d'|] eqn:E.
  - destruct (deps_eqb d' (currentDeps p st)) eqn:Ed.
    + apply deps_eqb_eq in Ed. now rewrite E, Ed.
    + rewrite effect_prevDeps. unfold currentDeps. now rewrite effect_location.
  - rewrite effect_prevDeps. unfold currentDeps. now rewrite effect_location.
Qed.

Lemma commit_idempotent (p : Props) (st : State number) :
  commit p (commit p st) = commit p st.
Proof. apply commit_unchanged, commit_prevDeps. Qed.

(** With a location held, a commit calls nothing. *)
Lemma commit_located (p : Props) (st : State number) :
  location st <> None ->
  calls (commit p st) = calls st /\
  requests (commit p st) = requests st /\
  pending (commit p st) = pending st /\
  location (commit p st) = location st.
Proof.
  intros H. unfold commit, effect.
  destruct (location st) as [l|] eqn:E; [|now elim H].
  destruct (prevDeps st) as [d'|].
  - destruct (deps_eqb d' (currentDeps p st)); cbn; rewrite E; auto.
  - cbn. rewrite E. auto.
Qed.

(** The alarm flag turns on with no location held: the commit is one call
    of [getCurrentLocation]. *)
Lemma commit_alarm_on (st : State number) (l : option nat) :
  location st = None -> prevDeps st = Some (false, l) ->
  commit {| isAlarmActive := true |} st
  = getCurrentLocation (setPrevDeps (true, None) st).
Proof.
  intros Hl Hd. unfold commit, currentDeps. rewrite Hd, Hl.
  cbn [option_map isAlarmActive]. unfold deps_eqb. cbn [fst snd Bool.eqb andb].
  unfold effect. cbn [setPrevDeps location isAlarmActive]. now rewrite Hl.
Qed.

Lemma onError_fields (r : nat) (code : Z) (st : State number) :
  error (onError r code st) = errorMessage code /\
  isTracking (onError r code st) = false /\
  location (onError r code st) = location st /\
  prevDeps (onError r code st) = prevDeps st /\
  calls (onError r code st) = calls st /\
  requests (onError r code st) = requests st /\
  pending (onError r code st)
  = filter (fun r' => negb (Nat.eqb r' r)) (pending st).
Proof.
  unfold onError, calls, requests. cbn.
  rewrite !filter_app, !List.length_app. cbn.
  repeat split; lia.
Qed.

End TrackerFacts.

Section TrackerClaims.

Import GpsTracker.

Variable number : Type.

(** C5.  A recorded message that matched makes [simulateIncomingSms] call
    [activateAlarm] (and one that did not, not).  In the tracker, when the
    alarm flag it is given turns from off to on while no location is held,
    the commit is exactly one call of [getCurrentLocation], and further
    commits while the flag stays on call nothing; with a location held a
    commit never calls it, whatever the flag does. *)
Theorem C5_match_triggers_alarm_then_locate :
  (forall s m st,
      PhoneFinderApp.triggered (PhoneFinderApp.newSms s m st) = true ->
      PhoneFinderApp.simulateIncomingSms s m st
      = PhoneFinderApp.toast "🚨 Celular Encontrado!"
          ("Palavra-chave detectada em SMS de " ++ s) "default"
          (PhoneFinderApp.activateAlarm
             (PhoneFinderApp.setSmsMessages
                (fun prev => PhoneFinderApp.newSms s m st :: firstn 9 prev) st))) /\
  (forall s m st,
      PhoneFinderApp.triggered (PhoneFinderApp.newSms s m st) = false ->
      PhoneFinderApp.trace (PhoneFinderApp.simulateIncomingSms s m st)
      = PhoneFinderApp.trace st /\
      PhoneFinderApp.isAlarmActive (PhoneFinderApp.simulateIncomingSms s m st)
      = PhoneFinderApp.isAlarmActive st) /\
  (forall (st : State number) l,
      location st = None -> prevDeps st = Some (false, l) ->
      let st' := commit {| isAlarmActive := true |} st in
      st' = getCurrentLocation (setPrevDeps (true, None) st) /\
      calls st' = S (calls st) /\
      commit {| isAlarmActive := true |} st' = st') /\
  (forall (st : State number),
      location st = None -> prevDeps st = Some (true, None) ->
      commit {| isAlarmActive := true |} st = st) /\
  (forall p (st : State number),
      location st <> None ->
      calls (commit p st) = calls st /\
      requests (commit p st) = requests st).
Proof.
  split; [exact simulateIncomingSms_triggered|].
  split.
  { intros s m st H. now rewrite (simulateIncomingSms_not_triggered _ _ _ H). }
  split.
  { intros st l Hl Hd st'. subst st'.
    split; [now apply commit_alarm_on with (l := l)|].
    split; [|apply commit_idempotent].
    rewrite (commit_alarm_on number st l Hl Hd), getCurrentLocation_calls.
    reflexivity. }
  split.
  { intros st Hl Hd. apply commit_unchanged.
    unfold currentDeps. now rewrite Hl, Hd. }
  intros p st H. destruct (commit_located number p st H) as (Hc & Hr & _).
  now split.
Qed.

(** C6.  A failure reported by the platform stores the reason of the kind
    its code is classified as, which is never [Unsupported]; a call on a
    platform without geolocation stores the reason of [Unsupported] and
    makes no request, none being outstanding that was not before.  The five
    reasons are pairwise different.  A failure is followed by no call and
    no request of the component's own: the error callback makes none, and
    the commit after it finds the dependencies of the effect unchanged. *)
Theorem C6_failures_are_classified :
  (forall (st : State number) r code,
      error (onError r code st) = reason (classify code) /\
      classify code <> Unsupported /\
      isTracking (onError r code st) = false /\
      calls (onError r code st) = calls st /\
      requests (onError r code st) = requests st) /\
  (forall (st : State number),
      geolocation st = false ->
      error (getCurrentLocation st) = reason Unsupported /\
      requests (getCurrentLocation st) = requests st /\
      pending (getCurrentLocation st) = pending st) /\
  (forall k1 k2, reason k1 = reason k2 -> k1 = k2) /\
  (forall p (st : State number) r code,
      prevDeps st = Some (currentDeps p st) ->
      commit p (onError r code st) = onError r code st) /\
  (forall p (st : State number),
      geolocation st = false ->
      commit p (commit p st) = commit p st /\
      requests (commit p st) = requests st).
Proof.
  split.
  { intros st r code.
    destruct (onError_fields number r code st) as (He & Ht & _ & _ & Hc & Hr & _).
    split; [|split; [|auto]].
    - rewrite He. unfold errorMessage, classify.
      destruct (code =? PERMISSION_DENIED); [reflexivity|].
      destruct (code =? POSITION_UNAVAILABLE); [reflexivity|].
      destruct (code =? TIMEOUT); reflexivity.
    - unfold classify.
      destruct (code =? PERMISSION_DENIED); [discriminate|].
      destruct (code =? POSITION_UNAVAILABLE); [discriminate|].
      destruct (code =? TIMEOUT); discriminate. }
  split.
  { intros st H.
    destruct (getCurrentLocation_unsupported number st H) as (He & _ & Hp & Hr).
    auto. }
  split.
  { intros k1 k2. destruct k1, k2; cbn; intros H;
      try reflexivity; discriminate H. }
  split.
  { intros p st r code H. apply commit_unchanged.
    destruct (onError_fields number r code st) as (_ & _ & Hl & Hd & _).
    unfold currentDeps in *. now rewrite Hd, Hl. }
  intros p st H. split; [apply commit_idempotent|].
  unfold commit, effect.
  assert (G : forall s : State number, geolocation s = false ->
              requests (getCurrentLocation s) = requests s)
    by (intros s Hs; apply (getCurrentLocation_unsupported number s Hs)).
  destruct (prevDeps st) as [d'|];
    [destruct (deps_eqb d' (currentDeps p st)); [reflexivity|]|];
    cbn [setPrevDeps location];
    (destruct (location st); [reflexivity|]);
    (destruct (isAlarmActive p); [|reflexivity]);
    now rewrite G.
Qed.

(** C8, as the code has it.  On a platform with geolocation a call of
    [getCurrentLocation] sets the in-progress flag and adds one request to
    the outstanding ones, whether or not one was pending; the button is
    disabled while the flag is set, so a click then does nothing. *)
Theorem C8_in_progress_flag_without_guard (st : State number)
    (Hgeo : geolocation st = true) :
  isTracking (getCurrentLocation st) = true /\
  pending (getCurrentLocation st) = (pending st ++ [nextRequest st])%list /\
  List.length (pending (getCurrentLocation st)) = S (List.length (pending st)) /\
  requests (getCurrentLocation st) = S (requests st) /\
  (isTracking st = true -> onClick st = st).
Proof.
  destruct (getCurrentLocation_supported number st Hgeo) as (Ht & _ & Hp & Hr).
  split; [exact Ht|]. split; [exact Hp|].
  split; [rewrite Hp, List.length_app; cbn; lia|].
  split; [exact Hr|].
  intros H. unfold onClick. now rewrite H.
Qed.

End TrackerClaims.

(** ** Concrete runs of the tracker, with integers for numbers *)
Section TrackerRuns.

Import GpsTracker.

Lemma C5_match_triggers_alarm_then_locate_witness :
  let mounted := commit {| isAlarmActive := false |} (init (number := Z) true) in
  location mounted = None /\
  prevDeps mounted = Some (false, None) /\
  calls (commit {| isAlarmActive := true |} mounted) = 1%nat /\
  pending (commit {| isAlarmActive := true |} mounted) = [0%nat].
Proof.
  intros mounted.
  destruct (C5_match_triggers_alarm_then_locate Z) as (_ & _ & H & _).
  destruct (H mounted None eq_refl eq_refl) as (Heq & Hcalls & _).
  split; [reflexivity|]. split; [reflexivity|].
  split; [exact Hcalls|].
  rewrite Heq. reflexivity.
Defined.

Lemma C6_failures_are_classified_witness :
  geolocation (init (number := Z) false) = false /\
  error (getCurrentLocation (init (number := Z) false))
  = "Geolocalização não suportada neste navegador" /\
  error (onError 0 3 (getCurrentLocation (init (number := Z) true)))
  = "Timeout ao obter localização".
Proof.
  destruct (C6_failures_are_classified Z) as (Hplat & Huns & _).
  split; [reflexivity|]. split.
  - exact (proj1 (Huns (init false) eq_refl)).
  - exact (proj1 (Hplat (getCurrentLocation (init true)) 0%nat 3)).
Defined.

Lemma C8_in_progress_flag_without_guard_witness :
  geolocation (init (number := Z) true) = true /\
  isTracking (getCurrentLocation (init (number := Z) true)) = true /\
  pending (getCurrentLocation (init (number := Z) true)) = [0%nat].
Proof.
  destruct (C8_in_progress_flag_without_guard Z (init true) eq_refl)
    as (Ht & Hp & _).
  split; [reflexivity|]. split; [exact Ht | exact Hp].
Defined.

(** C8, as stated, fails.  The component mounts with the alarm off, the
    button is clicked, and while that request is pending the alarm turns
    on: the effect calls [getCurrentLocation] again, nothing rejects the
    call, and two requests are outstanding. *)
Lemma C8_two_requests_outstanding :
  let w0 := (mkProps false, init (number := Z) true) in
  let w1 := run (fun z => z) [Render (mkProps false); Click] w0 in
  let w2 := step (fun z => z) (Render (mkProps true)) w1 in
  isTracking (snd w1) = true /\
  pending (snd w1) = [0%nat] /\
  pending (snd w2) = [0%nat; 1%nat] /\
  requests (snd w2) = 2%nat /\
  pending (getCurrentLocation (getCurrentLocation (init (number := Z) true)))
  = [0%nat; 1%nat].
Proof. vm_compute. repeat split. Qed.

End TrackerRuns.

(** ** PhoneFinderApp: more on the keyword and on matching *)
Section AppKeyword.

Import PhoneFinderApp.

Lemma upper_ascii_idempotent (c : ascii) :
  JS.upper_ascii (JS.upper_ascii c) = JS.upper_ascii c.
Proof. destruct c as [[] [] [] [] [] [] [] []]; reflexivity. Qed.

Lemma upper_ascii_not_small (c : ascii) :
  Text.is_small (JS.upper_ascii c) = false.
Proof. destruct c as [[] [] [] [] [] [] [] []]; reflexivity. Qed.

Lemma upper_ascii_letter (c : ascii) :
  Text.is_letter c = true -> Text.is_capital (JS.upper_ascii c) = true.
Proof. destruct c as [[] [] [] [] [] [] [] []]; intros H; first [reflexivity | discriminate H]. Qed.

Lemma toUpperCase_idempotent (s : string) :
  JS.toUpperCase (JS.toUpperCase s) = JS.toUpperCase s.
Proof.
  induction s as [|c s IH]; cbn [JS.toUpperCase]; [reflexivity|].
  now rewrite upper_ascii_idempotent, IH.
Qed.

Lemma toUpperCase_no_small (s : string) :
  Text.has Text.is_small (JS.toUpperCase s) = false.
Proof.
  induction s as [|c s IH]; cbn [JS.toUpperCase Text.has]; [reflexivity|].
  now rewrite upper_ascii_not_small, IH.
Qed.

Lemma toUpperCase_letter (s : string) :
  Text.has Text.is_letter s = true ->
  Text.has Text.is_capital (JS.toUpperCase s) = true.
Proof.
  induction s as [|c s IH]; cbn [JS.toUpperCase Text.has]; [discriminate|].
  intros H. apply orb_true_iff in H as [H|H].
  - now rewrite (upper_ascii_letter c H).
  - rewrite (IH H). apply orb_true_r.
Qed.

Lemma has_append (p : ascii -> bool) (a b : string) :
  Text.has p (a ++ b) = (Text.has p a || Text.has p b)%bool.
Proof.
  induction a as [|c a IH]; cbn [append Text.has]; [reflexivity|].
  now rewrite IH, orb_assoc.
Qed.

Lemma length_append (a b : string) :
  String.length (a ++ b) = (String.length a + String.length b)%nat.
Proof. induction a as [|c a IH]; cbn; [reflexivity | now rewrite IH]. Qed.

Lemma advance_to_keyword (t : Z) (st : State) :
  keyword (advance_to t st) = keyword st.
Proof. unfold advance_to. destruct (t <? clock st); reflexivity. Qed.

Lemma handleTestSms_keyword (st : State) :
  keyword (handleTestSms st) = keyword st.
Proof.
  unfold handleTestSms, simulateIncomingSms.
  destruct (negb (JS.truthy (testSender st)) || negb (JS.truthy (testMessage st)))%bool;
    [reflexivity|].
  destruct (triggered (newSms (testSender st) (testMessage st) st)); reflexivity.
Qed.

(** Only the keyword input changes the keyword. *)
Lemma step_keyword (e : Event) (st : State) :
  keyword (step e st) =
  match e with KeywordInput v => JS.toUpperCase v | _ => keyword st end.
Proof.
  destruct e as [t|v|v|v| |s m]; cbn [step]; try reflexivity.
  - apply advance_to_keyword.
  - apply handleTestSms_keyword.
  - unfold simulateIncomingSms.
    destruct (triggered (newSms s m st)); reflexivity.
Qed.

Lemma run_keyword_upper (es : list Event) (st : State) :
  JS.toUpperCase (keyword st) = keyword st ->
  JS.toUpperCase (keyword (run es st)) = keyword (run es st).
Proof.
  revert st; induction es as [|e es IH]; intros st H; cbn [run]; [exact H|].
  apply IH. rewrite step_keyword.
  destruct e; try exact H. apply toUpperCase_idempotent.
Qed.

(** X1.  The keyword is in upper case at every point of every run: upper-casing
    it again changes nothing, and it holds no letter [a]..[z]. *)
Theorem keyword_is_always_upper_case (now : Z) (es : list Event) :
  let k := keyword (run es (init now)) in
  JS.toUpperCase k = k /\ Text.has Text.is_small k = false.
Proof.
  intros k.
  assert (H : JS.toUpperCase k = k) by (apply run_keyword_upper; reflexivity).
  split; [exact H|]. rewrite <- H. apply toUpperCase_no_small.
Qed.

(** X2.  The keyword is typed in ASCII characters only, at least one of
    them a letter [a]..[z] or [A]..[Z], in whatever case.  Then a body with
    no capital letter [A]..[Z] in it never matches, whatever else it
    holds: the message is recorded unflagged and the alarm, the timers and
    the trace are left as they were. *)
Theorem body_without_capitals_never_matches (value sender body : string) (st : State)
    (Hascii : Text.ascii_only value = true)
    (Hletter : Text.has Text.is_letter value = true)
    (Hsmall : Text.has Text.is_capital body = false) :
  let st' := onChangeKeyword value st in
  triggered (newSms sender body st') = false /\
  isAlarmActive (simulateIncomingSms sender body st') = isAlarmActive st /\
  timers (simulateIncomingSms sender body st') = timers st /\
  trace (simulateIncomingSms sender body st') = trace st.
Proof.
  intros st'.
  assert (T : triggered (newSms sender body st') = false).
  { destruct (triggered (newSms sender body st')) eqn:E; [|reflexivity].
    apply includes_spec in E as [pre [post E]].
    cbn [onChangeKeyword keyword st'] in E.
    rewrite E, !has_append, (toUpperCase_letter value Hletter) in Hsmall.
    rewrite orb_true_l, orb_true_r in Hsmall. discriminate. }
  split; [exact T|].
  rewrite (simulateIncomingSms_not_triggered _ _ _ T). repeat split.
Qed.

Lemma body_without_capitals_never_matches_witness :
  Text.ascii_only "acharcelular123" = true /\
  Text.has Text.is_letter "acharcelular123" = true /\
  Text.has Text.is_capital "ache meu acharcelular123 celular" = false /\
  triggered (newSms "+551199990000" "ache meu acharcelular123 celular"
               (onChangeKeyword "acharcelular123" (init 0))) = false.
Proof.
  split; [reflexivity|]. split; [reflexivity|]. split; [reflexivity|].
  exact (proj1 (body_without_capitals_never_matches "acharcelular123"
                  "+551199990000" "ache meu acharcelular123 celular" (init 0)
                  eq_refl eq_refl eq_refl)).
Defined.

(** X3.  A message that matched is at least as long as the keyword; the empty
    body matches the empty keyword only. *)
Theorem match_needs_room (sender body : string) (st : State)
    (Hmatch : triggered (newSms sender body st) = true) :
  (String.length (keyword st) <= String.length body)%nat /\
  (body = "" -> keyword st = "").
Proof.
  apply includes_spec in Hmatch as [pre [post E]].
  split.
  - rewrite E, !length_append. lia.
  - intros ->. destruct pre; [|discriminate]. cbn in E.
    destruct (keyword st); [reflexivity | discriminate].
Qed.

Lemma match_needs_room_witness :
  triggered (newSms "+551199990000" "ache meu ACHARCELULAR123 celular" (init 0)) = true /\
  (String.length (keyword (init 0)) <= 32)%nat.
Proof.
  split; [reflexivity|].
  exact (proj1 (match_needs_room "+551199990000"
                  "ache meu ACHARCELULAR123 celular" (init 0) eq_refl)).
Defined.

End AppKeyword.

(** ** PhoneFinderApp: the test form *)
Section AppForm.

Import PhoneFinderApp.

Lemma handleTestSms_blank (st : State) :
  (negb (JS.truthy (testSender st)) || negb (JS.truthy (testMessage st)))%bool = true ->
  handleTestSms st = toast "Erro" "Preencha o remetente e a mensagem" "destructive" st.
Proof. unfold handleTestSms. now intros ->. Qed.

Lemma handleTestSms_filled (st : State) :
  (negb (JS.truthy (testSender st)) || negb (JS.truthy (testMessage st)))%bool = false ->
  handleTestSms st
  = onChangeTestMessage ""
      (onChangeTestSender ""
         (simulateIncomingSms (testSender st) (testMessage st) st)).
Proof. unfold handleTestSms. now intros ->. Qed.

(** X4.  Whatever the state, a second click on "Simular SMS Recebido" right
    after a first one only shows the error toast: the first click either
    failed for a blank field, which is still blank, or cleared both fields.
    A double click records one message at most. *)
Theorem handleTestSms_twice_records_once (st : State) :
  handleTestSms (handleTestSms st)
  = toast "Erro" "Preencha o remetente e a mensagem" "destructive" (handleTestSms st) /\
  smsMessages (handleTestSms (handleTestSms st)) = smsMessages (handleTestSms st) /\
  timers (handleTestSms (handleTestSms st)) = timers (handleTestSms st).
Proof.
  assert (E : handleTestSms (handleTestSms st)
              = toast "Erro" "Preencha o remetente e a mensagem" "destructive"
                  (handleTestSms st)).
  { apply handleTestSms_blank.
    destruct (negb (JS.truthy (testSender st)) || negb (JS.truthy (testMessage st)))%bool
      eqn:B.
    - now rewrite (handleTestSms_blank st B).
    - now rewrite (handleTestSms_filled st B). }
  rewrite E. repeat split.
Qed.

Lemma Forall_firstn {A} (P : A -> Prop) (n : nat) (l : list A) :
  Forall P l -> Forall P (firstn n l).
Proof.
  intros H. revert n. induction H as [|x l Hx _ IH]; intros [|n]; cbn; auto.
Qed.

Lemma truthy_nonempty (s : string) : JS.truthy s = true <-> s <> "".
Proof. destruct s; cbn; split; congruence. Qed.

(** X5.  Through the page alone, no message with an empty sender or an empty
    body gets into the feed. *)
Theorem form_records_no_blank_message (now : Z) (es : list Event)
    (Hpage : forallb AppTrace.from_page es = true) :
  Forall (fun m => sender m <> "" /\ message m <> "")
         (smsMessages (run es (init now))).
Proof.
  assert (G : forall st,
             Forall (fun m => sender m <> "" /\ message m <> "") (smsMessages st) ->
             Forall (fun m => sender m <> "" /\ message m <> "")
                    (smsMessages (run es st))).
  { induction es as [|e es IH]; intros st H; cbn [run]; [exact H|].
    cbn [forallb] in Hpage. apply andb_true_iff in Hpage as [He Hes].
    apply (IH Hes).
    destruct (step_feed e st) as [[_ Hf] | [m [Hr Hf]]]; rewrite Hf; [exact H|].
    constructor; [|now apply Forall_firstn].
    destruct e as [t|v|v|v| |s b]; cbn [recorded_by] in Hr; try discriminate.
    destruct (negb (JS.truthy (testSender st)) || negb (JS.truthy (testMessage st)))%bool
      eqn:B; [discriminate|].
    apply orb_false_iff in B as [Bs Bm].
    apply negb_false_iff in Bs, Bm.
    injection Hr as <-. cbn [newSms sender message].
    split; now apply truthy_nonempty. }
  apply G. constructor.
Qed.

Lemma form_records_no_blank_message_witness :
  forallb AppTrace.from_page
    [SenderInput "+551199990000"; ClickSimulate; MessageInput "oi"; ClickSimulate]
  = true /\
  Forall (fun m => sender m <> "" /\ message m <> "")
    (smsMessages
       (run [SenderInput "+551199990000"; ClickSimulate; MessageInput "oi"; ClickSimulate]
            (init 0))).
Proof.
  split; [reflexivity|].
  exact (form_records_no_blank_message 0
           [SenderInput "+551199990000"; ClickSimulate; MessageInput "oi"; ClickSimulate]
           eq_refl).
Defined.

End AppForm.

(** ** PhoneFinderApp: the timer queue along runs *)
Section AppQueue.

Import PhoneFinderApp.

Lemma started_app (a b : list Effect) :
  AppTrace.started (a ++ b) = (AppTrace.started a ++ AppTrace.started b)%list.
Proof. apply flat_map_app. Qed.

Lemma stopped_app (a b : list Effect) :
  AppTrace.stopped (a ++ b) = (AppTrace.stopped a ++ AppTrace.stopped b)%list.
Proof. apply flat_map_app. Qed.

Lemma started_stops (l : list Timer) :
  AppTrace.started (map (fun tm => OscillatorStop (oscillator tm)) l) = [].
Proof. induction l as [|tm l IH]; cbn; auto. Qed.

Lemma stopped_stops (l : list Timer) :
  AppTrace.stopped (map (fun tm => OscillatorStop (oscillator tm)) l)
  = map oscillator l.
Proof. induction l as [|tm l IH]; cbn; [reflexivity | now f_equal]. Qed.

Lemma sorted_filter (f : Timer -> bool) (l : list Timer) :
  StronglySorted AppTrace.deadline_le l ->
  StronglySorted AppTrace.deadline_le (filter f l).
Proof.
  induction 1 as [|a l Hs IH Ha]; cbn; [constructor|].
  destruct (f a); [|exact IH].
  constructor; [exact IH|].
  apply Forall_forall. intros x Hx. apply filter_In in Hx as [Hx _].
  revert x Hx. now apply Forall_forall.
Qed.

Lemma sorted_snoc (l : list Timer) (x : Timer) :
  StronglySorted AppTrace.deadline_le l ->
  Forall (fun a => AppTrace.deadline_le a x) l ->
  StronglySorted AppTrace.deadline_le (l ++ [x]).
Proof.
  induction 1 as [|a l Hs IH Ha]; intros Hx; cbn.
  - constructor; constructor.
  - inversion Hx as [|? ? Hax Hlx]; subst.
    constructor; [now apply IH|].
    apply Forall_app. split; [exact Ha | now constructor].
Qed.

(** In a queue in deadline order the timers due come first. *)
Lemma due_first (t : Z) (l : list Timer) :
  StronglySorted AppTrace.deadline_le l ->
  (filter (due t) l ++ filter (fun tm => negb (due t tm)) l)%list = l.
Proof.
  induction 1 as [|a l Hs IH Ha]; cbn; [reflexivity|].
  destruct (due t a) eqn:Da; cbn.
  - now rewrite IH.
  - assert (Hnone : Forall (fun tm => t < deadline tm) l).
    { apply Forall_forall. intros x Hx.
      pose proof (proj1 (Forall_forall _ _) Ha x Hx) as Hax.
      unfold AppTrace.deadline_le in Hax. unfold due in Da.
      apply Z.leb_gt in Da. lia. }
    now rewrite filter_due_none, filter_not_due_all.
Qed.

Lemma filter_due_later (t1 t2 : Z) (l : list Timer) :
  t1 <= t2 -> filter (due t2) (filter (due t1) l) = filter (due t1) l.
Proof.
  intros H. induction l as [|a l IH]; cbn; [reflexivity|].
  destruct (due t1 a) eqn:Da; [|exact IH]. cbn.
  assert (D2 : due t2 a = true).
  { unfold due in *. apply Z.leb_le in Da. apply Z.leb_le. lia. }
  now rewrite D2, IH.
Qed.

Lemma filter_not_due_later (t1 t2 : Z) (l : list Timer) :
  t1 <= t2 ->
  filter (fun tm => negb (due t2 tm)) (filter (fun tm => negb (due t1 tm)) l)
  = filter (fun tm => negb (due t2 tm)) l.
Proof.
  intros H. induction l as [|a l IH]; cbn; [reflexivity|].
  destruct (due t1 a) eqn:D1; cbn.
  - assert (D2 : due t2 a = true).
    { unfold due in *. apply Z.leb_le in D1. apply Z.leb_le. lia. }
    now rewrite D2.
  - destruct (due t2 a); cbn; now rewrite IH.
Qed.

Lemma queue_ok_init (now : Z) : AppTrace.queue_ok (init now).
Proof.
  repeat split; cbn; try constructor. discriminate.
Qed.

Lemma queue_ok_activateAlarm (st : State) :
  AppTrace.queue_ok st -> AppTrace.queue_ok (activateAlarm st).
Proof.
  intros (Hs & Hb & Ha & Hacc & Hseq). unfold AppTrace.queue_ok.
  cbn [activateAlarm timers clock isAlarmActive trace nextOscillator].
  split; [|split; [|split; [|split]]].
  - apply sorted_snoc; [exact Hs|].
    apply Forall_forall. intros x Hx.
    pose proof (proj1 (Forall_forall _ _) Hb x Hx) as Hbx.
    unfold AppTrace.deadline_le. cbn in Hbx |- *. unfold ALARM_MS in *. lia.
  - apply Forall_app. split; [exact Hb|].
    constructor; [cbn; unfold ALARM_MS; lia | constructor].
  - intros _ E. now apply app_eq_nil in E as [_ E].
  - rewrite started_app, stopped_app, map_app, Hacc. cbn.
    now rewrite List.app_nil_r, <- List.app_assoc.
  - rewrite started_app, Hseq, seq_S. reflexivity.
Qed.

Lemma queue_ok_advance_to (t : Z) (st : State) :
  AppTrace.queue_ok st -> AppTrace.queue_ok (advance_to t st).
Proof.
  intros Hq. destruct (Z.ltb_spec t (clock st)) as [Hlt|Hge].
  - unfold advance_to. apply Z.ltb_lt in Hlt. now rewrite Hlt.
  - destruct Hq as (Hs & Hb & Ha & Hacc & Hseq).
    rewrite advance_to_later by exact Hge. unfold AppTrace.queue_ok.
    cbn [timers clock isAlarmActive trace nextOscillator].
    split; [|split; [|split; [|split]]].
    + now apply sorted_filter.
    + apply Forall_forall. intros x Hx. apply filter_In in Hx as [Hx Hd].
      pose proof (proj1 (Forall_forall _ _) Hb x Hx) as Hbx.
      apply negb_true_iff in Hd. unfold due in Hd. apply Z.leb_gt in Hd.
      cbn beta in Hbx. lia.
    + destruct (filter (due t) (timers st)) eqn:F; [|discriminate].
      intros Hact. pose proof (due_first t (timers st) Hs) as Hsplit.
      rewrite F in Hsplit. cbn in Hsplit. rewrite Hsplit. now apply Ha.
    + rewrite started_app, stopped_app, started_stops, stopped_stops.
      rewrite List.app_nil_r, <- List.app_assoc, <- map_app.
      now rewrite (due_first t (timers st) Hs).
    + rewrite started_app, started_stops, List.app_nil_r. exact Hseq.
Qed.

Lemma queue_ok_frame (st st' : State) :
  timers st' = timers st -> clock st' = clock st ->
  isAlarmActive st' = isAlarmActive st ->
  nextOscillator st' = nextOscillator st ->
  AppTrace.started (trace st') = AppTrace.started (trace st) ->
  AppTrace.stopped (trace st') = AppTrace.stopped (trace st) ->
  AppTrace.queue_ok st -> AppTrace.queue_ok st'.
Proof.
  unfold AppTrace.queue_ok. intros -> -> -> -> -> ->. auto.
Qed.

Lemma queue_ok_toast (a b c : string) (st : State) :
  AppTrace.queue_ok st -> AppTrace.queue_ok (toast a b c st).
Proof.
  apply queue_ok_frame; try reflexivity; cbn [toast trace].
  - rewrite started_app. cbn. apply List.app_nil_r.
  - rewrite stopped_app. cbn. apply List.app_nil_r.
Qed.

Lemma queue_ok_simulateIncomingSms (s m : string) (st : State) :
  AppTrace.queue_ok st -> AppTrace.queue_ok (simulateIncomingSms s m st).
Proof.
  intros H. unfold simulateIncomingSms.
  destruct (triggered (newSms s m st)).
  - apply queue_ok_toast, queue_ok_activateAlarm.
    revert H. now apply queue_ok_frame.
  - revert H. now apply queue_ok_frame.
Qed.

Lemma queue_ok_step (e : Event) (st : State) :
  AppTrace.queue_ok st -> AppTrace.queue_ok (step e st).
Proof.
  intros H. destruct e as [t|v|v|v| |s m]; cbn [step].
  - now apply queue_ok_advance_to.
  - revert H. now apply queue_ok_frame.
  - revert H. now apply queue_ok_frame.
  - revert H. now apply queue_ok_frame.
  - unfold handleTestSms.
    destruct (negb (JS.truthy (testSender st)) || negb (JS.truthy (testMessage st)))%bool.
    + now apply queue_ok_toast.
    + apply (queue_ok_frame
               (simulateIncomingSms (testSender st) (testMessage st) st));
        try reflexivity.
      now apply queue_ok_simulateIncomingSms.
  - now apply queue_ok_simulateIncomingSms.
Qed.

Lemma queue_ok_run (es : list Event) (st : State) :
  AppTrace.queue_ok st -> AppTrace.queue_ok (run es st).
Proof.
  revert st; induction es as [|e es IH]; intros st H; cbn [run]; [exact H|].
  now apply IH, queue_ok_step.
Qed.

End AppQueue.

Section AppQueueTheorems.

Import PhoneFinderApp.

Lemma filter_all_due (t : Z) (l : list Timer) :
  Forall (fun tm => deadline tm <= t) l ->
  filter (due t) l = l /\ filter (fun tm => negb (due t tm)) l = [].
Proof.
  induction 1 as [|a l Ha _ [IH1 IH2]]; cbn; [now split|].
  assert (D : due t a = true) by (unfold due; now apply Z.leb_le).
  rewrite D. cbn. now rewrite IH1, IH2.
Qed.

(** X6.  In every run the pending countdowns end within 3000 ms of the clock.
    So, whatever happened before, once 3000 ms pass without a new trigger
    the alarm is off, no countdown is left, and every oscillator that was
    started has been stopped. *)
Theorem alarm_is_off_after_three_quiet_seconds (now : Z) (es : list Event) (t : Z)
    (Hlate : clock (run es (init now)) + 3000 <= t) :
  let st := run es (init now) in
  Forall (fun tm => clock st < deadline tm <= clock st + 3000) (timers st) /\
  isAlarmActive (advance_to t st) = false /\
  timers (advance_to t st) = [] /\
  AppTrace.stopped (trace (advance_to t st)) = AppTrace.started (trace (advance_to t st)).
Proof.
  intros st. fold st in Hlate.
  destruct (queue_ok_run es (init now) (queue_ok_init now))
    as (Hs & Hb & Ha & Hacc & Hseq).
  fold st in Hs, Hb, Ha, Hacc, Hseq. unfold ALARM_MS in Hb.
  split; [exact Hb|].
  assert (Hdue : Forall (fun tm => deadline tm <= t) (timers st)).
  { apply Forall_forall. intros x Hx.
    pose proof (proj1 (Forall_forall _ _) Hb x Hx) as Hbx. cbn beta in Hbx. lia. }
  destruct (filter_all_due t (timers st) Hdue) as [F1 F2].
  rewrite advance_to_later by lia.
  cbn [isAlarmActive timers trace]. rewrite F1, F2.
  split; [|split; [reflexivity|]].
  - destruct (timers st) eqn:E; [|reflexivity].
    destruct (isAlarmActive st); [now elim Ha | reflexivity].
  - rewrite started_app, stopped_app, started_stops, stopped_stops.
    now rewrite List.app_nil_r, Hacc.
Qed.

Lemma alarm_is_off_after_three_quiet_seconds_witness :
  let es := [IncomingSms "+551199990000" "ACHARCELULAR123"; At 2000;
             IncomingSms "+551199990000" "ACHARCELULAR123"] in
  clock (run es (init 0)) + 3000 <= 5000 /\
  isAlarmActive (run es (init 0)) = true /\
  isAlarmActive (advance_to 5000 (run es (init 0))) = false.
Proof.
  intros es.
  assert (H : clock (run es (init 0)) + 3000 <= 5000) by (vm_compute; discriminate).
  split; [exact H|]. split; [reflexivity|].
  exact (proj1 (proj2 (alarm_is_off_after_three_quiet_seconds 0 es 5000 H))).
Defined.

(** X7.  In every run the oscillators are numbered in the order in which they
    were started, those stopped so far are the first of them, stopped in
    that same order, and the others are the oscillators of the pending
    countdowns: none is stopped twice, or without having been started, and
    none is left running without a countdown that will stop it. *)
Theorem oscillators_are_stopped_in_order (now : Z) (es : list Event) :
  let st := run es (init now) in
  AppTrace.started (trace st) = seq 0 (nextOscillator st) /\
  AppTrace.started (trace st)
  = (AppTrace.stopped (trace st) ++ map oscillator (timers st))%list /\
  NoDup (AppTrace.stopped (trace st) ++ map oscillator (timers st)) /\
  StronglySorted AppTrace.deadline_le (timers st).
Proof.
  intros st.
  destruct (queue_ok_run es (init now) (queue_ok_init now))
    as (Hs & Hb & Ha & Hacc & Hseq).
  fold st in Hs, Hb, Ha, Hacc, Hseq.
  split; [exact Hseq|]. split; [exact Hacc|]. split; [|exact Hs].
  rewrite <- Hacc, Hseq. apply seq_NoDup.
Qed.

(** X8.  Letting time pass in two steps is the same as letting it pass in one:
    the same countdowns fire, in the same order. *)
Theorem advance_to_composes (now : Z) (es : list Event) (t1 t2 : Z)
    (Horder : clock (run es (init now)) <= t1 <= t2) :
  advance_to t2 (advance_to t1 (run es (init now)))
  = advance_to t2 (run es (init now)).
Proof.
  set (st := run es (init now)) in *.
  destruct (queue_ok_run es (init now) (queue_ok_init now)) as (Hs & _).
  fold st in Hs.
  rewrite (advance_to_later t1 st) by lia.
  rewrite (advance_to_later t2 st) by lia.
  rewrite advance_to_later by (cbn; lia).
  cbn [keyword isAlarmActive smsMessages testSender testMessage clock timers
       nextOscillator trace].
  assert (K : filter (due t2) (timers st)
              = (filter (due t1) (timers st)
                 ++ filter (due t2) (filter (fun tm => negb (due t1 tm)) (timers st)))%list).
  { rewrite <- (due_first t1 (timers st) Hs) at 1.
    rewrite filter_app, filter_due_later by lia. reflexivity. }
  rewrite filter_not_due_later by lia.
  rewrite K, map_app, <- List.app_assoc.
  f_equal.
  destruct (filter (due t2) (filter (fun tm => negb (due t1 tm)) (timers st)));
    [now rewrite List.app_nil_r|].
  now destruct (filter (due t1) (timers st)).
Qed.

Lemma advance_to_composes_witness :
  let es := [IncomingSms "+551199990000" "ACHARCELULAR123"; At 2000;
             IncomingSms "+551199990000" "ACHARCELULAR123"] in
  clock (run es (init 0)) <= 3000 <= 5000 /\
  timers (advance_to 5000 (advance_to 3000 (run es (init 0)))) = [].
Proof.
  intros es.
  assert (H : clock (run es (init 0)) <= 3000 <= 5000)
    by (split; vm_compute; discriminate).
  split; [exact H|].
  rewrite (advance_to_composes 0 es 3000 5000 H). reflexivity.
Defined.

End AppQueueTheorems.

(** ** PhoneFinderApp: arrival times and ids along runs *)
Section AppArrival.

Import PhoneFinderApp.

Lemma advance_to_clock (t : Z) (st : State) :
  clock st <= clock (advance_to t st) /\
  (clock st <= t -> clock (advance_to t st) = t).
Proof.
  unfold advance_to. destruct (Z.ltb_spec t (clock st)); cbn; split; lia.
Qed.

Lemma sorted_firstn (n : nat) (l : list SmsMessage) :
  StronglySorted AppTrace.arrival_ge l ->
  StronglySorted AppTrace.arrival_ge (firstn n l).
Proof.
  intros H. revert n. induction H as [|a l Hs IH Ha]; intros [|n]; cbn;
    try constructor; auto.
  now apply Forall_firstn.
Qed.

Lemma feed_ok_later (st st' : State) :
  smsMessages st' = smsMessages st -> clock st <= clock st' ->
  AppTrace.feed_ok st -> AppTrace.feed_ok st'.
Proof.
  unfold AppTrace.feed_ok. intros -> Hc [Hs Hf]. split; [exact Hs|].
  apply Forall_forall. intros m Hm.
  destruct (proj1 (Forall_forall _ _) Hf m Hm) as [Ht Hid]. split; [lia | exact Hid].
Qed.

Lemma feed_ok_record (s m : string) (st st' : State) :
  smsMessages st' = newSms s m st :: firstn 9 (smsMessages st) ->
  clock st' = clock st ->
  AppTrace.feed_ok st -> AppTrace.feed_ok st'.
Proof.
  unfold AppTrace.feed_ok. intros -> -> [Hs Hf]. split.
  - constructor; [now apply sorted_firstn|].
    apply Forall_firstn. apply Forall_forall. intros x Hx.
    destruct (proj1 (Forall_forall _ _) Hf x Hx) as [Ht _].
    unfold AppTrace.arrival_ge. cbn. exact Ht.
  - constructor; [cbn; split; [lia | reflexivity]|].
    now apply Forall_firstn.
Qed.

Lemma handleTestSms_clock (st : State) : clock (handleTestSms st) = clock st.
Proof.
  unfold handleTestSms.
  destruct (negb (JS.truthy (testSender st)) || negb (JS.truthy (testMessage st)))%bool;
    [reflexivity|].
  cbn. apply simulateIncomingSms_clock.
Qed.

Lemma step_clock (e : Event) (st : State) : clock st <= clock (step e st).
Proof.
  destruct e as [t|v|v|v| |s m]; cbn [step]; cbn; try lia.
  - apply advance_to_clock.
  - rewrite handleTestSms_clock. lia.
  - rewrite simulateIncomingSms_clock. lia.
Qed.

Lemma feed_ok_step (e : Event) (st : State) :
  AppTrace.feed_ok st -> AppTrace.feed_ok (step e st).
Proof.
  intros H. destruct (step_feed e st) as [[_ Hf] | [m [Hr Hf]]].
  - revert H. apply feed_ok_later; [exact Hf | apply step_clock].
  - destruct e as [t|v|v|v| |s b]; cbn [recorded_by] in Hr; try discriminate.
    + destruct (negb (JS.truthy (testSender st)) || negb (JS.truthy (testMessage st)))%bool;
        [discriminate|].
      injection Hr as <-. revert H.
      apply (feed_ok_record (testSender st) (testMessage st));
        [exact Hf | apply handleTestSms_clock].
    + injection Hr as <-. revert H.
      apply (feed_ok_record s b); [exact Hf | apply simulateIncomingSms_clock].
Qed.

Lemma feed_ok_run (es : list Event) (st : State) :
  AppTrace.feed_ok st -> AppTrace.feed_ok (run es st).
Proof.
  revert st; induction es as [|e es IH]; intros st H; cbn [run]; [exact H|].
  now apply IH, feed_ok_step.
Qed.

Lemma feed_ok_init (now : Z) : AppTrace.feed_ok (init now).
Proof. split; constructor. Qed.

(** X10.  A message recorded after the clock has moved on gets an [id] that no
    message of the feed has; if the ids of the feed were pairwise different
    they still are. *)
Theorem later_message_has_fresh_id (now : Z) (es : list Event) (t : Z)
    (s m : string) (Hlater : clock (run es (init now)) < t) :
  let st := run es (init now) in
  let st' := simulateIncomingSms s m (advance_to t st) in
  ~ In (id (newSms s m (advance_to t st))) (map id (smsMessages st)) /\
  (NoDup (map id (smsMessages st)) -> NoDup (map id (smsMessages st'))).
Proof.
  intros st st'. fold st in Hlater.
  destruct (feed_ok_run es (init now) (feed_ok_init now)) as [_ Hf]. fold st in Hf.
  assert (Hc : clock (advance_to t st) = t) by (apply advance_to_clock; lia).
  assert (Hfresh : ~ In (id (newSms s m (advance_to t st))) (map id (smsMessages st))).
  { intros Hin. apply in_map_iff in Hin as [x [Hid Hx]].
    destruct (proj1 (Forall_forall _ _) Hf x Hx) as [Ht Hidx].
    cbn [newSms id] in Hid. rewrite Hidx, Hc in Hid.
    apply number_toString_inj in Hid. lia. }
  split; [exact Hfresh|].
  intros Hnd. unfold st'. rewrite simulateIncomingSms_feed, advance_to_feed.
  cbn [map]. constructor.
  - intros Hin. apply Hfresh. apply in_map_iff in Hin as [x [Hid Hx]].
    apply in_map_iff. exists x. split; [exact Hid|].
    rewrite <- (firstn_skipn 9 (smsMessages st)). apply in_or_app. now left.
  - rewrite <- (firstn_skipn 9 (smsMessages st)), map_app in Hnd.
    now apply NoDup_app_remove_r in Hnd.
Qed.

Lemma later_message_has_fresh_id_witness :
  let es := [IncomingSms "+551199990000" "first"] in
  clock (run es (init 1700000000000)) < 1700000000001 /\
  map id (smsMessages
            (simulateIncomingSms "+551199990000" "second"
               (advance_to 1700000000001 (run es (init 1700000000000)))))
  = ["1700000000001"; "1700000000000"] /\
  ~ In "1700000000001" (map id (smsMessages (run es (init 1700000000000)))).
Proof.
  intros es.
  assert (H : clock (run es (init 1700000000000)) < 1700000000001) by reflexivity.
  split; [exact H|]. split; [reflexivity|].
  exact (proj1 (later_message_has_fresh_id 1700000000000 es 1700000000001
                  "+551199990000" "second" H)).
Defined.

End AppArrival.

(** ** GpsTracker: what runs keep *)
Section TrackerRunsKeep.

Import GpsTracker.

Variable number : Type.
Variable Math_round : number -> Z.

Lemma NoDup_snoc {A} (l : list A) (x : A) :
  NoDup l -> ~ In x l -> NoDup (l ++ [x]).
Proof.
  induction 1 as [|a l Ha Hl IH]; intros Hx; cbn.
  - constructor; [intros [] | constructor].
  - constructor.
    + intros Hin. apply in_app_or in Hin as [Hin|[<-|[]]]; [now apply Ha|].
      apply Hx. now left.
    + apply IH. intros Hin. apply Hx. now right.
Qed.

Lemma last_found_app (a b : list (Effect number)) :
  TrackerTrace.last_found (a ++ b)
  = fold_left (fun acc e => match e with
                            | OnLocationFound l => Some l
                            | _ => acc
                            end) b (TrackerTrace.last_found a).
Proof. apply fold_left_app. Qed.

Lemma pending_empty (st : State number) :
  TrackerTrace.tracker_ok st -> geolocation st = false -> pending st = [].
Proof.
  intros (_ & Hlt & Hreq & _ & _ & _ & _ & Hno) G.
  destruct (Hno G) as (H0 & _). rewrite H0 in Hreq.
  destruct (pending st) as [|r l]; [reflexivity|].
  inversion Hlt as [|? ? Hr _]; subst. lia.
Qed.

Lemma tracker_ok_setPrevDeps (d : Deps) (st : State number) :
  TrackerTrace.tracker_ok st -> TrackerTrace.tracker_ok (setPrevDeps d st).
Proof. intros H. exact H. Qed.

Lemma tracker_ok_getCurrentLocation (st : State number) :
  TrackerTrace.tracker_ok st -> TrackerTrace.tracker_ok (getCurrentLocation st).
Proof.
  intros (Hnd & Hlt & Hreq & Hopt & Htr & Hloc & Hyes & Hno).
  unfold getCurrentLocation, TrackerTrace.tracker_ok, requests, calls in *.
  cbn [emit geolocation]. destruct (geolocation st) eqn:G;
    cbn [negb issue setError setIsTracking emit pending nextRequest trace
         isTracking location geolocation error].
  - specialize (Hyes eq_refl).
    rewrite !filter_app, !List.length_app, !last_found_app. cbn.
    split; [|split; [|split; [|split; [|split; [|split; [|split]]]]]].
    + apply NoDup_snoc; [exact Hnd|]. intros Hin.
      pose proof (proj1 (Forall_forall _ _) Hlt _ Hin) as Hn.
      cbn beta in Hn. lia.
    + apply Forall_app. split.
      * apply Forall_forall. intros r Hr.
        pose proof (proj1 (Forall_forall _ _) Hlt _ Hr) as Hn.
        cbn beta in Hn. lia.
      * constructor; [lia | constructor].
    + lia.
    + apply Forall_app. split; [|repeat constructor].
      apply Forall_app. split; [exact Hopt | repeat constructor].
    + intros _ E. now apply app_eq_nil in E as [_ E].
    + exact Hloc.
    + intros _. lia.
    + intros G'. congruence.
  - destruct (Hno eq_refl) as (H0 & Ht & Hl & _).
    rewrite !filter_app, !List.length_app, !last_found_app. cbn.
    split; [exact Hnd|]. split; [exact Hlt|]. split; [lia|].
    split; [apply Forall_app; split; [exact Hopt | repeat constructor]|].
    split; [exact Htr|]. split; [exact Hloc|].
    split; [intros G'; congruence|].
    intros _. split; [lia|]. split; [exact Ht|]. split; [exact Hl|]. now right.
Qed.

Lemma outstanding_supported (r : nat) (st : State number) :
  TrackerTrace.tracker_ok st -> outstanding r st = true -> geolocation st = true.
Proof.
  intros Hok Hout. destruct (geolocation st) eqn:G; [reflexivity|].
  unfold outstanding in Hout. now rewrite (pending_empty st Hok G) in Hout.
Qed.

Lemma tracker_ok_settled (r : nat) (st st' : State number) :
  pending st' = filter (fun r' => negb (Nat.eqb r' r)) (pending st) ->
  nextRequest st' = nextRequest st ->
  NoDup (pending st) ->
  Forall (fun r => (r < nextRequest st)%nat) (pending st) ->
  NoDup (pending st') /\ Forall (fun r => (r < nextRequest st')%nat) (pending st').
Proof.
  intros -> -> Hnd Hlt. split; [now apply NoDup_filter|].
  apply Forall_forall. intros x Hx. apply filter_In in Hx as [Hx _].
  exact (proj1 (Forall_forall _ _) Hlt x Hx).
Qed.

Lemma tracker_ok_onError (r : nat) (code : Z) (st : State number) :
  TrackerTrace.tracker_ok st -> outstanding r st = true ->
  TrackerTrace.tracker_ok (onError r code st).
Proof.
  intros Hok Hout. pose proof (outstanding_supported r st Hok Hout) as G.
  destruct Hok as (Hnd & Hlt & Hreq & Hopt & Htr & Hloc & Hyes & Hno).
  destruct (tracker_ok_settled r st (onError r code st) eq_refl eq_refl Hnd Hlt)
    as [Hnd' Hlt'].
  unfold TrackerTrace.tracker_ok, requests, calls in *.
  split; [exact Hnd'|]. split; [exact Hlt'|].
  cbn [onError emit setIsTracking setError settle pending nextRequest trace
       isTracking location geolocation error].
  rewrite !filter_app, !List.length_app, !last_found_app. cbn.
  split; [lia|].
  split; [apply Forall_app; split; [exact Hopt | repeat constructor]|].
  split; [discriminate|]. split; [exact Hloc|].
  split; [intros _; specialize (Hyes G); lia|].
  intros G'. congruence.
Qed.

Lemma tracker_ok_onSuccess (r : nat) (c : Coordinates number) (now : Z)
    (st : State number) :
  TrackerTrace.tracker_ok st -> outstanding r st = true ->
  TrackerTrace.tracker_ok (onSuccess Math_round r c now st).
Proof.
  intros Hok Hout. pose proof (outstanding_supported r st Hok Hout) as G.
  destruct Hok as (Hnd & Hlt & Hreq & Hopt & Htr & Hloc & Hyes & Hno).
  destruct (tracker_ok_settled r st (onSuccess Math_round r c now st)
              eq_refl eq_refl Hnd Hlt) as [Hnd' Hlt'].
  unfold TrackerTrace.tracker_ok, requests, calls in *.
  split; [exact Hnd'|]. split; [exact Hlt'|].
  cbn [onSuccess emit setIsTracking setLocation settle pending nextRequest trace
       isTracking location geolocation error option_map snd].
  rewrite !filter_app, !List.length_app, !last_found_app. cbn.
  split; [lia|].
  split; [apply Forall_app; split;
          [apply Forall_app; split; [exact Hopt | repeat constructor]
          | repeat constructor]|].
  split; [discriminate|]. split; [reflexivity|].
  split; [intros _; specialize (Hyes G); lia|].
  intros G'. congruence.
Qed.

Lemma tracker_ok_commit (p : Props) (st : State number) :
  TrackerTrace.tracker_ok st -> TrackerTrace.tracker_ok (commit p st).
Proof.
  intros H.
  assert (E : TrackerTrace.tracker_ok (effect p (setPrevDeps (currentDeps p st) st))).
  { unfold effect. cbn [setPrevDeps location].
    destruct (location st); [exact H|].
    destruct (isAlarmActive p); [|exact H].
    now apply tracker_ok_getCurrentLocation. }
  unfold commit. destruct (prevDeps st) as [d'|]; [|exact E].
  destruct (deps_eqb d' (currentDeps p st)); [exact H | exact E].
Qed.

Lemma tracker_ok_onClick (st : State number) :
  TrackerTrace.tracker_ok st -> TrackerTrace.tracker_ok (onClick st).
Proof.
  intros H. unfold onClick. destruct (isTracking st); [exact H|].
  now apply tracker_ok_getCurrentLocation.
Qed.

Lemma tracker_ok_step (e : Event number) (w : Props * State number) :
  TrackerTrace.tracker_ok (snd w) ->
  TrackerTrace.tracker_ok (snd (step Math_round e w)).
Proof.
  destruct w as [p st]. cbn [snd]. intros H.
  destruct e as [p'| |r c now|r code]; cbn [step].
  - now apply tracker_ok_commit.
  - now apply tracker_ok_commit, tracker_ok_onClick.
  - destruct (outstanding r st) eqn:O; [|exact H].
    now apply tracker_ok_commit, tracker_ok_onSuccess.
  - destruct (outstanding r st) eqn:O; [|exact H].
    now apply tracker_ok_commit, tracker_ok_onError.
Qed.

Lemma tracker_ok_run (es : list (Event number)) (w : Props * State number) :
  TrackerTrace.tracker_ok (snd w) ->
  TrackerTrace.tracker_ok (snd (run Math_round es w)).
Proof.
  revert w; induction es as [|e es IH]; intros w H; cbn [run]; [exact H|].
  now apply IH, tracker_ok_step.
Qed.

Lemma tracker_ok_init (supported : bool) :
  TrackerTrace.tracker_ok (init (number := number) supported).
Proof.
  unfold TrackerTrace.tracker_ok, requests, calls. cbn.
  repeat split; try constructor; try reflexivity; discriminate.
Qed.

End TrackerRunsKeep.

Section TrackerRunTheorems.

Import GpsTracker.

Variable number : Type.
Variable Math_round : number -> Z.

Lemma getCurrentLocation_geolocation (st : State number) :
  geolocation (getCurrentLocation st) = geolocation st.
Proof.
  unfold getCurrentLocation. cbn [emit geolocation].
  destruct (geolocation st) eqn:G; cbn; exact G.
Qed.

Lemma commit_geolocation (p : Props) (st : State number) :
  geolocation (commit p st) = geolocation st.
Proof.
  assert (E : geolocation (effect p (setPrevDeps (currentDeps p st) st)) = geolocation st).
  { unfold effect. cbn [setPrevDeps location].
    destruct (location st); [reflexivity|].
    destruct (isAlarmActive p); [|reflexivity].
    now rewrite getCurrentLocation_geolocation. }
  unfold commit. destruct (prevDeps st) as [d'|]; [|exact E].
  destruct (deps_eqb d' (currentDeps p st)); [reflexivity | exact E].
Qed.

Lemma step_geolocation (e : Event number) (w : Props * State number) :
  geolocation (snd (step Math_round e w)) = geolocation (snd w).
Proof.
  destruct w as [p st]. destruct e as [p'| |r c now|r code]; cbn [step snd].
  - apply commit_geolocation.
  - rewrite commit_geolocation. unfold onClick.
    destruct (isTracking st); [reflexivity | apply getCurrentLocation_geolocation].
  - destruct (outstanding r st); cbn [snd]; [|reflexivity].
    now rewrite commit_geolocation.
  - destruct (outstanding r st); cbn [snd]; [|reflexivity].
    now rewrite commit_geolocation.
Qed.

Lemma run_geolocation (es : list (Event number)) (w : Props * State number) :
  geolocation (snd (run Math_round es w)) = geolocation (snd w).
Proof.
  revert w; induction es as [|e es IH]; intros w; cbn [run]; [reflexivity|].
  now rewrite IH, step_geolocation.
Qed.

(** X12.  In every run of the component, the outstanding requests are pairwise
    different and among those issued, every request was made with high
    accuracy, a timeout of 10000 ms and no cached position, the in-progress
    flag is set only while some request is outstanding, and each call of
    [getCurrentLocation] made exactly one request if the platform has
    geolocation, none if it has not. *)
Theorem requests_are_accounted_for (supported : bool) (p : Props)
    (es : list (Event number)) :
  let st := snd (run Math_round es (p, init supported)) in
  NoDup (pending st) /\
  Forall (fun r => (r < requests st)%nat) (pending st) /\
  Forall TrackerTrace.request_options_ok (trace st) /\
  options = {| enableHighAccuracy := true; timeout := 10000; maximumAge := 0 |} /\
  (isTracking st = false \/ pending st <> []) /\
  requests st = (if supported then calls st else 0%nat).
Proof.
  intros st.
  pose proof (tracker_ok_run number Math_round es (p, init supported)
                (tracker_ok_init number supported))
    as (Hnd & Hlt & Hreq & Hopt & Htr & _ & Hyes & Hno).
  pose proof (run_geolocation es (p, init supported)) as G.
  fold st in Hnd, Hlt, Hreq, Hopt, Htr, Hyes, Hno, G. cbn in G.
  split; [exact Hnd|]. split; [now rewrite Hreq|]. split; [exact Hopt|].
  split; [reflexivity|]. split.
  - destruct (isTracking st); [right; now apply Htr | now left].
  - destruct supported; [now apply Hyes | now apply Hno].
Qed.

(** X13.  On a platform without geolocation no run makes a request, sets the
    in-progress flag or obtains a location, nothing is handed to the
    parent, and the only message ever shown is the one saying that
    geolocation is not supported. *)
Theorem unsupported_platform_never_requests (p : Props) (es : list (Event number)) :
  let st := snd (run Math_round es (p, init false)) in
  requests st = 0%nat /\
  pending st = [] /\
  isTracking st = false /\
  location st = None /\
  TrackerTrace.last_found (trace st) = None /\
  (error st = "" \/ error st = "Geolocalização não suportada neste navegador").
Proof.
  intros st.
  pose proof (tracker_ok_run number Math_round es (p, init false)
                (tracker_ok_init number false)) as Hok.
  pose proof (run_geolocation es (p, init false)) as G.
  fold st in Hok, G. cbn in G.
  pose proof (pending_empty number st Hok G) as Hp.
  destruct Hok as (_ & _ & _ & _ & _ & Hloc & _ & Hno).
  destruct (Hno G) as (H0 & Ht & Hl & He).
  rewrite Hl in Hloc. cbn in Hloc. auto 10.
Qed.

(** X14.  In every run the location the component holds is the one it handed to
    [onLocationFound] last, and it holds none while it handed over none. *)
Theorem parent_has_the_location_held (supported : bool) (p : Props)
    (es : list (Event number)) :
  let st := snd (run Math_round es (p, init supported)) in
  option_map snd (location st) = TrackerTrace.last_found (trace st).
Proof.
  intros st.
  pose proof (tracker_ok_run number Math_round es (p, init supported)
                (tracker_ok_init number supported))
    as (_ & _ & _ & _ & _ & Hloc & _).
  exact Hloc.
Qed.

Lemma step_mounted (e : Event number) (w : Props * State number) :
  prevDeps (snd w) = Some (currentDeps (fst w) (snd w)) ->
  let w' := step Math_round e w in
  prevDeps (snd w') = Some (currentDeps (fst w') (snd w')).
Proof.
  destruct w as [p st]. cbn [fst snd]. intros H.
  destruct e as [p'| |r c now|r code]; cbn [step].
  - apply commit_prevDeps.
  - apply commit_prevDeps.
  - destruct (outstanding r st); cbn [fst snd]; [apply commit_prevDeps | exact H].
  - destruct (outstanding r st); cbn [fst snd]; [apply commit_prevDeps | exact H].
Qed.

Lemma run_mounted (es : list (Event number)) (w : Props * State number) :
  prevDeps (snd w) = Some (currentDeps (fst w) (snd w)) ->
  let w' := run Math_round es w in
  prevDeps (snd w') = Some (currentDeps (fst w') (snd w')).
Proof.
  revert w; induction es as [|e es IH]; intros w H; cbn [run]; [exact H|].
  apply IH. now apply step_mounted.
Qed.

(** X15.  Once the component is mounted, rendering it again with the props it
    has changes nothing, whatever happened since: the effect does not run,
    so no acquisition starts. *)
Theorem rerender_with_same_props_does_nothing (supported : bool) (p0 p : Props)
    (es : list (Event number)) :
  let w := run Math_round (Render p :: es) (p0, init supported) in
  step Math_round (Render (fst w)) w = w.
Proof.
  intros w.
  assert (H : prevDeps (snd w) = Some (currentDeps (fst w) (snd w))).
  { unfold w. cbn [run step]. apply run_mounted. cbn [fst snd].
    apply commit_prevDeps. }
  destruct w as [p' st]. cbn [fst snd] in *. cbn [step].
  now rewrite (commit_unchanged number p' st H).
Qed.

Lemma onSuccess_fields (r : nat) (c : Coordinates number) (now : Z)
    (st : State number) :
  (exists i, location (onSuccess Math_round r c now st)
             = Some (i, {| latitude := coords_latitude number c;
                           longitude := coords_longitude number c;
                           accuracy := coords_accuracy number c;
                           timestamp := now |})) /\
  calls (onSuccess Math_round r c now st) = calls st /\
  requests (onSuccess Math_round r c now st) = requests st /\
  isTracking (onSuccess Math_round r c now st) = false /\
  error (onSuccess Math_round r c now st) = error st.
Proof.
  unfold onSuccess, calls, requests. cbn.
  rewrite !filter_app, !List.length_app. cbn.
  split; [now eexists|]. repeat split; lia.
Qed.

Lemma step_located (e : Event number) (p : Props) (st : State number) :
  location st <> None ->
  location (snd (step Math_round e (p, st))) <> None /\
  (calls (snd (step Math_round e (p, st)))
   <= calls st + TrackerTrace.clicks [e])%nat.
Proof.
  intros Hl.
  assert (C : forall p' (st' : State number), location st' <> None ->
              location (commit p' st') <> None /\ calls (commit p' st') = calls st').
  { intros p' st' H. destruct (commit_located number p' st' H) as (Hc & _ & _ & Hloc).
    split; [now rewrite Hloc | exact Hc]. }
  destruct e as [p'| |r c now|r code]; cbn [step snd].
  - destruct (C p' st Hl) as [H1 H2]. split; [exact H1 | lia].
  - assert (Hk : location (onClick st) <> None /\ (calls (onClick st) <= calls st + 1)%nat).
    { unfold onClick. destruct (isTracking st); [split; [exact Hl | lia]|].
      rewrite getCurrentLocation_location, getCurrentLocation_calls. split; [exact Hl | lia]. }
    destruct Hk as [Hk1 Hk2]. destruct (C p (onClick st) Hk1) as [H1 H2].
    split; [exact H1|]. rewrite H2. cbn. lia.
  - destruct (outstanding r st); cbn [snd]; [|split; [exact Hl | lia]].
    destruct (onSuccess_fields r c now st) as ([i Hi] & Hc & _).
    assert (Hs : location (onSuccess Math_round r c now st) <> None)
      by (rewrite Hi; discriminate).
    destruct (C p _ Hs) as [H1 H2]. split; [exact H1|]. rewrite H2, Hc. lia.
  - destruct (outstanding r st); cbn [snd]; [|split; [exact Hl | lia]].
    destruct (onError_fields number r code st) as (_ & _ & Hloc & _ & Hc & _).
    assert (Hs : location (onError r code st) <> None) by now rewrite Hloc.
    destruct (C p _ Hs) as [H1 H2]. split; [exact H1|]. rewrite H2, Hc. lia.
Qed.

(** X16.  Once a location is held it is never dropped, and from then on
    [getCurrentLocation] runs for a click on the button only: its calls
    are at most one per click, whatever the alarm flag does. *)
Theorem located_then_only_clicks_acquire (p : Props) (st : State number)
    (es : list (Event number)) (Hheld : location st <> None) :
  let st' := snd (run Math_round es (p, st)) in
  location st' <> None /\
  (calls st' <= calls st + TrackerTrace.clicks es)%nat.
Proof.
  revert p st Hheld. induction es as [|e es IH]; intros p st Hheld; cbn [run].
  - cbn. split; [exact Hheld | lia].
  - destruct (step_located e p st Hheld) as [H1 H2].
    destruct (step Math_round e (p, st)) as [p1 st1] eqn:E. cbn [snd] in H1, H2.
    destruct (IH p1 st1 H1) as [H3 H4]. split; [exact H3|].
    cbn zeta in H4.
    assert (K : TrackerTrace.clicks (e :: es)
                = (TrackerTrace.clicks [e] + TrackerTrace.clicks es)%nat).
    { unfold TrackerTrace.clicks. cbn [filter].
      destruct e; cbn [List.length]; lia. }
    rewrite K. lia.
Qed.

End TrackerRunTheorems.

Section TrackerSuccess.

Import GpsTracker.

Variable number : Type.
Variable Math_round : number -> Z.

Lemma commit_located_state (p : Props) (s : State number) :
  location s <> None ->
  commit p s = s \/ commit p s = setPrevDeps (currentDeps p s) s.
Proof.
  intros H. unfold commit, effect.
  destruct (location s) eqn:E; [|now elim H].
  destruct (prevDeps s) as [d'|];
    [destruct (deps_eqb d' (currentDeps p s)); [now left|]|];
    cbn [setPrevDeps location]; rewrite E; now right.
Qed.

(** X17.  A successful answer, followed by the commit it causes: the component
    holds exactly the reading of the platform with the time of the
    callback, as a new object, whatever it held before; that same record is
    the last one handed to [onLocationFound]; the in-progress flag is off;
    an error message shown before stays; and although the location the
    effect depends on has changed, [getCurrentLocation] is not called and
    no request is made, alarm on or not. *)
Theorem success_replaces_the_location (p : Props) (r : nat)
    (c : Coordinates number) (now : Z) (st : State number) :
  let reading := {| latitude := coords_latitude number c;
                    longitude := coords_longitude number c;
                    accuracy := coords_accuracy number c;
                    timestamp := now |} in
  let st' := commit p (onSuccess Math_round r c now st) in
  location st' = Some (nextObject st, reading) /\
  TrackerTrace.last_found (trace st') = Some reading /\
  isTracking st' = false /\
  error st' = error st /\
  calls st' = calls st /\
  requests st' = requests st.
Proof.
  intros reading st'.
  assert (Hs : location (onSuccess Math_round r c now st) <> None) by discriminate.
  assert (K : location (onSuccess Math_round r c now st) = Some (nextObject st, reading)
              /\ TrackerTrace.last_found (trace (onSuccess Math_round r c now st))
                 = Some reading
              /\ isTracking (onSuccess Math_round r c now st) = false
              /\ error (onSuccess Math_round r c now st) = error st
              /\ calls (onSuccess Math_round r c now st) = calls st
              /\ requests (onSuccess Math_round r c now st) = requests st).
  { destruct (onSuccess_fields number Math_round r c now st)
      as (_ & Hc & Hr & Ht & He).
    split; [reflexivity|]. split; [|auto].
    unfold onSuccess. cbn [emit trace setIsTracking setLocation settle].
    now rewrite !last_found_app. }
  unfold st'. destruct (commit_located_state p _ Hs) as [-> | ->]; exact K.
Qed.

End TrackerSuccess.

Section TrackerMoreRuns.

Import GpsTracker.

Lemma located_then_only_clicks_acquire_witness :
  let held := snd (run (fun z => z)
                     [Render (mkProps false); Click;
                      PositionSuccess 0 (mkCoords (-23550520) (-46633308) 12) 1700000000000]
                     (mkProps false, init (number := Z) true)) in
  location held <> None /\
  calls held = 1%nat /\
  calls (snd (run (fun z => z) [Render (mkProps true); Click; Render (mkProps false)]
                (mkProps false, held))) = 2%nat.
Proof.
  intros held.
  assert (H : location held <> None) by discriminate.
  split; [exact H|]. split; [reflexivity|].
  pose proof (located_then_only_clicks_acquire Z (fun z => z) (mkProps false) held
                [Render (mkProps true); Click; Render (mkProps false)] H) as [_ Hle].
  apply Nat.le_antisymm; [exact Hle | vm_compute; lia].
Defined.

End TrackerMoreRuns.

Section AppAlarmCount.

Import PhoneFinderApp.

Lemma step_nextOscillator (e : Event) (st : State) :
  nextOscillator (step e st)
  = (nextOscillator st + List.length (filter triggered (recorded_by e st)))%nat.
Proof.
  assert (S : forall s m, nextOscillator (simulateIncomingSms s m st)
                          = (nextOscillator st
                             + List.length (filter triggered [newSms s m st]))%nat).
  { intros s m. unfold simulateIncomingSms. cbn [filter].
    destruct (triggered (newSms s m st)); cbn; lia. }
  destruct e as [t|v|v|v| |s m]; cbn [step recorded_by]; cbn [filter List.length];
    try (cbn; lia).
  - unfold advance_to. destruct (t <? clock st); cbn; lia.
  - unfold handleTestSms.
    destruct (negb (JS.truthy (testSender st)) || negb (JS.truthy (testMessage st)))%bool.
    + cbn. lia.
    + cbn [onChangeTestMessage onChangeTestSender nextOscillator]. apply S.
  - apply S.
Qed.

(** X11.  In every run the alarm was triggered once for each recorded message
    that matched, and for nothing else: as many oscillators were started as
    messages arrived flagged; editing the keyword, time passing and a
    refused form start none. *)
Theorem alarm_rings_once_per_match (now : Z) (es : list Event) :
  let st := run es (init now) in
  List.length (AppTrace.started (trace st))
  = List.length (filter triggered (recorded es (init now))) /\
  nextOscillator st = List.length (filter triggered (recorded es (init now))).
Proof.
  intros st.
  assert (G : forall st0, nextOscillator (run es st0)
              = (nextOscillator st0
                 + List.length (filter triggered (recorded es st0)))%nat).
  { induction es as [|e es' IH]; intros st0; cbn [run recorded].
    - cbn. lia.
    - rewrite IH, step_nextOscillator, filter_app, List.length_app. lia. }
  pose proof (G (init now)) as H. cbn [init nextOscillator] in H. fold st in H.
  split; [|exact H].
  destruct (queue_ok_run es (init now) (queue_ok_init now))
    as (_ & _ & _ & _ & Hseq).
  fold st in Hseq. rewrite Hseq, length_seq. exact H.
Qed.

End AppAlarmCount.

(** ** GpsTracker: the link that is copied and the link that is opened *)
Section ShareTheorems.

Import GpsTrackerShare.

Variable number : Type.
Variable Math_round : number -> Z.
Variable number_text : number -> string.
Variable toLocaleString : Z -> string.



End ShareTheorems.

(** ** LocationMap *)
Section MapTheorems.

Import LocationMap.

Variable number : Type.

Lemma trimStart_blank (s : string) :
  JS.whitespace_only s = true -> JSTrim.trimStart s = "".
Proof.
  induction s as [|c s IH]; cbn; [reflexivity|].
  intros H. apply andb_true_iff in H as [Hc Hs]. rewrite Hc. now apply IH.
Qed.

Lemma trimStart_not_blank (s : string) :
  JS.whitespace_only s = false ->
  exists c s', JSTrim.trimStart s = String c s' /\ JS.is_white_space c = false.
Proof.
  induction s as [|c s IH]; cbn; [discriminate|].
  destruct (JS.is_white_space c) eqn:Hc; cbn.
  - exact IH.
  - intros _. now exists c, s.
Qed.

Lemma trimEnd_keeps_head (c : ascii) (s : string) :
  JS.is_white_space c = false -> JSTrim.trimEnd (String c s) <> "".
Proof.
  intros Hc. cbn. rewrite Hc. destruct (JSTrim.trimEnd s); discriminate.
Qed.

(** [!s.trim()] holds exactly for the blank strings. *)
Lemma trim_truthy (s : string) :
  JS.truthy (JSTrim.trim s) = negb (JS.whitespace_only s).
Proof.
  unfold JSTrim.trim. destruct (JS.whitespace_only s) eqn:W.
  - now rewrite (trimStart_blank s W).
  - destruct (trimStart_not_blank s W) as (c & s' & -> & Hc).
    pose proof (trimEnd_keeps_head c s' Hc) as H.
    destruct (JSTrim.trimEnd (String c s')); [now elim H | reflexivity].
Qed.

Lemma initializeMap_token (p : Props number) (st : State number) :
  mapboxToken (initializeMap p st) = mapboxToken st.
Proof.
  unfold initializeMap. destruct (location p) as [[i l]|]; [|reflexivity].
  destruct (JS.truthy (mapboxToken st) && mapContainer st)%bool; reflexivity.
Qed.

Lemma commit_token (p : Props number) (st : State number) :
  mapboxToken (commit p st) = mapboxToken st.
Proof.
  unfold commit, effect.
  destruct (prevDeps st) as [d'|];
    [destruct (deps_eqb d' (currentDeps p st)); [reflexivity|]|];
    (destruct (location p) as [[i l]|] eqn:E; [|reflexivity]);
    cbn [mapboxToken];
    (destruct (JS.truthy (mapboxToken st)); [|reflexivity]);
    now rewrite initializeMap_token.
Qed.

(** What a commit adds to the loads started: nothing, or one load with the
    token of the moment, which is then not empty. *)
Lemma commit_imports (p : Props number) (st : State number) :
  imports (commit p st) = imports st \/
  (imports (commit p st) = (imports st ++ [mapboxToken st])%list /\
   mapboxToken st <> "").
Proof.
  assert (E : forall st1 : State number,
             trace st1 = trace st -> mapboxToken st1 = mapboxToken st ->
             imports (effect p st1) = imports st \/
             (imports (effect p st1) = (imports st ++ [mapboxToken st])%list /\
              mapboxToken st <> "")).
  { intros st1 Ht Hk. unfold effect, initializeMap.
    destruct (location p) as [[i l]|]; [|left; unfold imports; now rewrite Ht].
    rewrite Hk. destruct (mapboxToken st) as [|c k] eqn:K; cbn [JS.truthy andb];
      [left; unfold imports; now rewrite Ht|].
    destruct (mapContainer st1); [|left; unfold imports; now rewrite Ht].
    right. split; [|discriminate].
    unfold imports. cbn [emit trace]. rewrite flat_map_app, Ht. reflexivity. }
  unfold commit. destruct (prevDeps st) as [d'|].
  - destruct (deps_eqb d' (currentDeps p st)); [now left|]. now apply E.
  - now apply E.
Qed.

Lemma handleTokenSubmit_form (p : Props number) (st : State number) :
  tokenFormShown st = true ->
  handleTokenSubmit p st
  = emit (Toast "Token Necessário" "Insira seu token público do Mapbox" "destructive") st.
Proof.
  unfold tokenFormShown, handleTokenSubmit.
  destruct (mapboxToken st); [reflexivity | discriminate].
Qed.

Lemma imports_emit_other (e : Effect number) (st : State number) :
  (forall t l, e <> ImportMapbox t l) ->
  imports (emit e st) = imports st.
Proof.
  intros H. unfold imports. cbn [emit trace]. rewrite flat_map_app. cbn.
  destruct e; try apply List.app_nil_r. now elim (H token l).
Qed.

(** X19.  The button "Carregar" never starts a load.  It exists only while the
    token is empty, and then [handleTokenSubmit] stops at its test of the
    token: all a click does is show the toast that asks for one. *)
Theorem load_button_never_starts_a_load (p : Props number) (st : State number) :
  imports (snd (step ClickLoad (p, st))) = imports st /\
  trace (snd (step ClickLoad (p, st)))
  = (trace st
     ++ if tokenFormShown st
        then [Toast "Token Necessário" "Insira seu token público do Mapbox" "destructive"]
        else [])%list.
Proof.
  cbn [step]. unfold tokenFormShown.
  destruct (mapboxToken st) as [|c k] eqn:K; cbn [JS.truthy negb snd].
  - assert (T : trace (commit p (handleTokenSubmit p st))
                = (trace st ++ [Toast "Token Necessário"
                                  "Insira seu token público do Mapbox" "destructive"])%list).
    { unfold handleTokenSubmit. rewrite K. cbn [JSTrim.trim JSTrim.trimStart
        JSTrim.trimEnd JS.truthy negb].
      unfold commit, effect. cbn [emit prevDeps mapboxToken trace].
      rewrite K. cbn [JS.truthy].
      destruct (prevDeps st) as [d'|];
        [destruct (deps_eqb d' _)|]; destruct (location p); reflexivity. }
    split; [|exact T]. unfold imports. rewrite T, flat_map_app. cbn.
    now rewrite List.app_nil_r.
  - split; [reflexivity | now rewrite List.app_nil_r].
Qed.

Lemma step_token_kept (e : Event number) (p : Props number) (st : State number) :
  mapboxToken st <> "" ->
  mapboxToken (snd (step e (p, st))) = mapboxToken st.
Proof.
  intros H. assert (S : tokenFormShown st = false).
  { unfold tokenFormShown. destruct (mapboxToken st); [now elim H | reflexivity]. }
  destruct e; cbn [step]; rewrite ?S; cbn [snd]; try reflexivity.
  apply commit_token.
Qed.

(** X20.  Once a token is there it stays: the input that sets it, like the rest
    of the form, is rendered only while the token is empty, so no event
    changes or clears a token that was entered. *)
Theorem token_is_entered_once (p : Props number) (st : State number)
    (es : list (Event number)) (Hset : mapboxToken st <> "") :
  mapboxToken (snd (run es (p, st))) = mapboxToken st /\
  tokenFormShown (snd (run es (p, st))) = false.
Proof.
  assert (G : mapboxToken (snd (run es (p, st))) = mapboxToken st).
  { revert p st Hset. induction es as [|e es IH]; intros p st Hset; cbn [run];
      [reflexivity|].
    pose proof (step_token_kept e p st Hset) as K.
    destruct (step e (p, st)) as [p1 st1]. cbn [snd] in K.
    rewrite IH; [exact K | now rewrite K]. }
  split; [exact G|]. unfold tokenFormShown. rewrite G.
  destruct (mapboxToken st); [now elim Hset | reflexivity].
Qed.

Lemma commit_imports_ok (p : Props number) (st : State number) :
  Forall (fun t => t = mapboxToken st /\ t <> "") (imports st) ->
  Forall (fun t => t = mapboxToken (commit p st) /\ t <> "") (imports (commit p st)).
Proof.
  intros H. rewrite commit_token.
  destruct (commit_imports p st) as [-> | [-> Hne]]; [exact H|].
  apply Forall_app. split; [exact H | now repeat constructor].
Qed.

Lemma step_imports (e : Event number) (w : Props number * State number) :
  Forall (fun t => t = mapboxToken (snd w) /\ t <> "") (imports (snd w)) ->
  Forall (fun t => t = mapboxToken (snd (step e w)) /\ t <> "")
         (imports (snd (step e w))).
Proof.
  destruct w as [p st]. cbn [snd]. intros H.
  destruct e as [p'|v| | | ]; cbn [step].
  - cbn [snd]. now apply commit_imports_ok.
  - destruct (tokenFormShown st) eqn:S; cbn [snd]; [|exact H].
    apply commit_imports_ok.
    assert (I : imports st = []).
    { unfold tokenFormShown in S. destruct (imports st) as [|t ts]; [reflexivity|].
      inversion H as [|? ? [Ht Hne] _]; subst.
      destruct (mapboxToken st); [now elim Hne | discriminate S]. }
    change (imports (setMapboxToken v st)) with (imports st). rewrite I. constructor.
  - destruct (tokenFormShown st); cbn [snd]; [|exact H].
    now apply commit_imports_ok.
  - destruct (tokenFormShown st); cbn [snd]; [|exact H].
    apply commit_imports_ok. rewrite imports_emit_other by discriminate. exact H.
  - destruct (tokenFormShown st) eqn:S; cbn [snd]; [|exact H].
    apply commit_imports_ok. rewrite (handleTokenSubmit_form p st S).
    rewrite imports_emit_other by discriminate. exact H.
Qed.

(** X21.  All the loads of a run were started with one and the same token, the
    one the component holds, and it is not empty; while no token is held no
    load has been started. *)
Theorem loads_use_the_one_token (p0 : Props number) (es : list (Event number)) :
  let st := snd (run es (p0, init)) in
  Forall (fun t => t = mapboxToken st /\ t <> "") (imports st) /\
  (mapboxToken st <> "" \/ imports st = []).
Proof.
  intros st.
  assert (G : forall w : Props number * State number,
             Forall (fun t => t = mapboxToken (snd w) /\ t <> "") (imports (snd w)) ->
             Forall (fun t => t = mapboxToken (snd (run es w)) /\ t <> "")
                    (imports (snd (run es w)))).
  { induction es as [|e es' IH]; intros w H; cbn [run]; [exact H|].
    now apply IH, step_imports. }
  assert (F : Forall (fun t => t = mapboxToken st /\ t <> "") (imports st))
    by (apply G; constructor).
  split; [exact F|].
  destruct (imports st) as [|t ts]; [now right|].
  inversion F as [|? ? [Ht Hne] _]; subst. now left.
Qed.

(** X22.  Whichever comes first, the token or the location, the load starts when
    the second one arrives, once, with that token and that location; a new
    location later starts another load with the same token. *)
Theorem load_starts_when_token_and_location_meet (p0 : Props number)
    (i j : nat) (l l' : GpsTracker.LocationData number) (v : string)
    (Hv : v <> "") (Hnew : i <> j) :
  trace (snd (run [Render (mkProps (Some (i, l))); TokenInput v] (p0, init)))
  = [ImportMapbox v l] /\
  trace (snd (run [Render (mkProps None); TokenInput v; Render (mkProps (Some (i, l)))]
                  (p0, init)))
  = [ImportMapbox v l] /\
  trace (snd (run [Render (mkProps (Some (i, l))); TokenInput v;
                   Render (mkProps (Some (j, l')))] (p0, init)))
  = [ImportMapbox v l; ImportMapbox v l'] /\
  trace (snd (run [Render (mkProps (Some (i, l))); TokenInput v;
                   Render (mkProps (Some (i, l)))] (p0, init)))
  = [ImportMapbox v l].
Proof.
  destruct v as [|c k]; [now elim Hv|].
  assert (E : Nat.eqb i j = false) by now apply Nat.eqb_neq.
  assert (R : Nat.eqb i i = true) by apply Nat.eqb_refl.
  assert (S : String.eqb (String c k) (String c k) = true) by apply String.eqb_refl.
  assert (N : String.eqb "" (String c k) = false) by reflexivity.
  repeat (cbv -[String.eqb Nat.eqb]; rewrite ?S, ?E, ?R, ?N).
  repeat split.
Qed.


End MapTheorems.

(** ** Concrete runs of the map component, with integers for numbers *)
Section MapRuns.

Import LocationMap.

Lemma token_is_entered_once_witness :
  let st := snd (run [Render (mkProps None); TokenInput "pk.test"]
                     (mkProps (number := Z) None, init)) in
  mapboxToken st <> "" /\
  mapboxToken (snd (run [TokenInput ""; ClickLoad; TokenInput "pk.other"]
                        (mkProps None, st))) = "pk.test".
Proof.
  intros st.
  assert (H : mapboxToken st <> "") by discriminate.
  split; [exact H|].
  exact (proj1 (token_is_entered_once Z (mkProps None) st
                  [TokenInput ""; ClickLoad; TokenInput "pk.other"] H)).
Defined.

Lemma load_starts_when_token_and_location_meet_witness :
  "pk.test" <> "" /\ 1%nat <> 2%nat /\
  imports (snd (run [Render (mkProps (Some (1%nat, GpsTracker.mkLocation 10 20 5 1000)));
                     TokenInput "pk.test"]
                    (mkProps (number := Z) None, init)))
  = ["pk.test"].
Proof.
  assert (Hv : "pk.test" <> "") by discriminate.
  assert (Hn : 1%nat <> 2%nat) by discriminate.
  split; [exact Hv|]. split; [exact Hn|].
  unfold imports.
  rewrite (proj1 (load_starts_when_token_and_location_meet Z (mkProps None)
                    1%nat 2%nat (GpsTracker.mkLocation 10 20 5 1000)
                    (GpsTracker.mkLocation 10 20 5 1000) "pk.test" Hv Hn)).
  reflexivity.
Defined.

End MapRuns.

(** ** A concrete location copied and opened, with integers for numbers *)
Section ShareRuns.

Import GpsTrackerShare.


End ShareRuns.
